(** * ASE: the deterministic transformation substrate

    A shallow embedding of the pure core of the repository: the patch
    engine ([core/patcher.py]), the dependency graph ([core/graph.py]), the
    fuzzy file resolver ([core/planner/utils.py]), the strategy dispatcher
    and its helpers ([core/worker/strategies.py], [core/worker/utils.py],
    [core/worker/__init__.py]) and the two definition-removal engines
    ([core/ast_patcher.py], [core/cst_patcher.py]).

    Conventions.
    - A Python [str] is the list of its code points; the model covers the
      code points below 256, written with the type [ascii].
    - A Python [float] is an IEEE binary64 number, the kernel's [float].
    - [str.find] returns [None] where Python returns [-1].
    - A function that may raise returns a [result]. *)

From Stdlib Require Import Ascii String ZArith PrimFloat Uint63 Lia.
From Stdlib Require DecimalString DecimalZ.
From stdpp Require Import gmap strings list.

#[local] Set Warnings "-inexact-float,-uniform-inheritance,-notation-for-abbreviation,-register-all,-clear-no-such-hyp".
#[local] Open Scope nat_scope.

Abbreviation str := (list ascii).

Coercion list_ascii_of_string : string >-> list.

(** ** Python string primitives *)

Module PyStr.

Definition NL : ascii := "010"%char.
Definition TAB : ascii := "009"%char.
Definition SPACE : ascii := " "%char.

(** The text whose lines are [ls], each line ended by a newline. *)
Definition unlines (ls : list str) : str := concat (map (fun l => l ++ [NL]) ls).

(** The same for lines written as literals. *)
Definition text (ls : list string) : str := unlines (map list_ascii_of_string ls).

(** [s.startswith(p)] *)
Fixpoint startswith (p s : str) : bool :=
  match p, s with
  | [], _ => true
  | _ :: _, [] => false
  | a :: p', b :: s' => if Ascii.eqb a b then startswith p' s' else false
  end.

(** [s.endswith(p)] *)
Definition endswith (p s : str) : bool := startswith (reverse p) (reverse s).

(** [s.find(sub)]: the index of the first occurrence. *)
Fixpoint find (sub s : str) : option nat :=
  if startswith sub s then Some 0
  else match s with
       | [] => None
       | _ :: s' => S <$> find sub s'
       end.

(** [s.find(sub, start)] for [start >= 0]. *)
Definition find_from (sub s : str) (start : nat) : option nat :=
  if start <=? length s then (fun i => start + i) <$> find sub (drop start s)
  else None.

(** [s.rfind(sub)]: the index of the last occurrence. *)
Fixpoint rfind (sub s : str) : option nat :=
  match s with
  | [] => if startswith sub [] then Some 0 else None
  | _ :: s' =>
      match rfind sub s' with
      | Some i => Some (S i)
      | None => if startswith sub s then Some 0 else None
      end
  end.

(** [s.rfind(sub, 0, stop)] *)
Definition rfind_upto (sub s : str) (stop : nat) : option nat := rfind sub (take stop s).

(** [sub in s] *)
Definition contains (sub s : str) : bool := bool_decide (is_Some (find sub s)).

(** [s[a:b]] for [0 <= a], [0 <= b]. *)
Definition slice (s : str) (a b : nat) : str := take (b - a) (drop a s).

(** [s.split(sep)] for a single-character separator. *)
Fixpoint split_char (c : ascii) (s : str) : list str :=
  match s with
  | [] => [[]]
  | a :: s' =>
      if Ascii.eqb a c then [] :: split_char c s'
      else match split_char c s' with
           | [] => [[a]]
           | w :: ws => (a :: w) :: ws
           end
  end.

(** [s.split(sep)] for a non-empty separator: the text is cut at each
    occurrence found from the left; every cut consumes at least one
    character, so [length s] rounds suffice ([split_fuel_enough]). *)
Fixpoint split_fuel (fuel : nat) (sep s : str) : list str :=
  match fuel with
  | 0 => [s]
  | S f =>
      match find sep s with
      | None => [s]
      | Some i => take i s :: split_fuel f sep (drop (i + length sep) s)
      end
  end.

Definition split (sep s : str) : list str := split_fuel (length s) sep s.

(** [s.split(sep, 1)] *)
Definition split1 (sep s : str) : list str :=
  match find sep s with
  | None => [s]
  | Some i => [take i s; drop (i + length sep) s]
  end.

(** [sep.join(parts)] *)
Fixpoint join (sep : str) (parts : list str) : str :=
  match parts with
  | [] => []
  | [p] => p
  | p :: ps => p ++ sep ++ join sep ps
  end.

(** [s.replace(old, new)] for a non-empty [old]. *)
Definition replace (old new s : str) : str := join new (split old s).

(** [s.replace(old, new, 1)] *)
Definition replace1 (old new s : str) : str :=
  match find old s with
  | None => s
  | Some i => take i s ++ new ++ drop (i + length old) s
  end.

(** [c.isspace()] on the code points below 256. *)
Definition isspace (c : ascii) : bool :=
  let n := nat_of_ascii c in
  ((9 <=? n) && (n <=? 13)) || ((28 <=? n) && (n <=? 32)) || (n =? 133) || (n =? 160).

Fixpoint lstrip_by (f : ascii -> bool) (s : str) : str :=
  match s with
  | [] => []
  | c :: s' => if f c then lstrip_by f s' else s
  end.

Definition strip_by (f : ascii -> bool) (s : str) : str :=
  reverse (lstrip_by f (reverse (lstrip_by f s))).

(** [s.strip()] *)
Definition strip (s : str) : str := strip_by isspace s.

(** [s.strip(chars)] *)
Definition strip_chars (chars s : str) : str :=
  strip_by (fun c => bool_decide (c ∈ chars)) s.

(** [c.lower()] and [c.upper()] on the code points below 256. The three
    of them whose upper case is not one code point below 256 (181, 223,
    255) are left as they are: Python maps them to text that holds no
    ASCII letter run of the keywords compared against below, so the
    comparisons agree. *)
Definition lower_char (c : ascii) : ascii :=
  let n := nat_of_ascii c in
  if ((65 <=? n) && (n <=? 90)) || ((192 <=? n) && (n <=? 222) && negb (n =? 215))
  then ascii_of_nat (n + 32) else c.

Definition upper_char (c : ascii) : ascii :=
  let n := nat_of_ascii c in
  if ((97 <=? n) && (n <=? 122)) || ((224 <=? n) && (n <=? 254) && negb (n =? 247))
  then ascii_of_nat (n - 32) else c.

Definition lower (s : str) : str := map lower_char s.
Definition upper (s : str) : str := map upper_char s.

(** A line boundary of [str.splitlines] below 256, the two-character
    boundary CR LF apart. *)
Definition is_linebreak (c : ascii) : bool :=
  let n := nat_of_ascii c in
  ((10 <=? n) && (n <=? 13)) || ((28 <=? n) && (n <=? 30)) || (n =? 133).

(** [s.splitlines()]: [cur] is the current line, reversed. *)
Fixpoint splitlines_go (cur : str) (s : str) : list str :=
  match s with
  | [] => match cur with [] => [] | _ => [reverse cur] end
  | c :: s' =>
      if is_linebreak c then
        match s' with
        | d :: s'' =>
            if (nat_of_ascii c =? 13) && (nat_of_ascii d =? 10)
            then reverse cur :: splitlines_go [] s''
            else reverse cur :: splitlines_go [] s'
        | [] => [reverse cur]
        end
      else splitlines_go (c :: cur) s'
  end.

Definition splitlines (s : str) : list str := splitlines_go [] s.

(** [float(n)] for a length or a count. *)
Definition float_of_nat (n : nat) : float := PrimFloat.of_uint63 (Uint63.of_Z (Z.of_nat n)).

End PyStr.

(** ** Results of functions that may raise *)

Inductive exn : Type :=
  | ValueError (msg : string)
  | AttributeError (msg : string)
  | SyntaxError
  | FileNotFoundError.

Inductive result (A : Type) : Type :=
  | Ok (a : A)
  | Raise (e : exn).

Arguments Ok {A} a.
Arguments Raise {A} e.

Definition is_raise {A : Type} (r : result A) : bool :=
  match r with Ok _ => false | Raise _ => true end.

(** ** [core/patcher.py]: the three-tier patch engine *)

Module Patcher.
Import PyStr.

Definition FENCE : str := "```".
Definition SEARCH_MARKER : str := "<<<<<<< SEARCH" ++ [NL].
Definition SEPARATOR_LINE : str := "=======" ++ [NL].
Definition SEPARATOR : str := [NL] ++ "=======" ++ [NL].
Definition END_MARKER : str := ">>>>>>>".
Definition END_LINE : str := [NL] ++ ">>>>>>>".
Definition ELLIPSIS : str := "<ELLIPSIS>".

(** The indentation of the signature: every space and tab of
    [modified_code[line_start:start_idx]] counts (the loop has no break). *)
Fixpoint target_indent_of (prefix : str) : nat :=
  match prefix with
  | [] => 0
  | c :: rest =>
      (if Ascii.eqb c SPACE then 1 else if Ascii.eqb c TAB then 4 else 0)
      + target_indent_of rest
  end.

(** The indentation of a following line: leading spaces and tabs, up to
    the first other character. *)
Fixpoint current_indent_of (line_content : str) : nat :=
  match line_content with
  | [] => 0
  | c :: rest =>
      if Ascii.eqb c SPACE then 1 + current_indent_of rest
      else if Ascii.eqb c TAB then 4 + current_indent_of rest
      else 0
  end.

(** The [while curr_pos < len(modified_code)] loop of the structural
    delete; every round moves [curr_pos] forward, so [length modified_code]
    rounds suffice ([block_end_fuel]). *)
Fixpoint block_end (fuel : nat) (modified_code : str) (target_indent curr_pos : nat) : nat :=
  match fuel with
  | 0 => curr_pos
  | S f =>
      if curr_pos <? length modified_code then
        let next_line_end := default (length modified_code) (find_from [NL] modified_code curr_pos) in
        let line_content := slice modified_code curr_pos next_line_end in
        if bool_decide (strip line_content = []) then
          block_end f modified_code target_indent (next_line_end + 1)
        else if current_indent_of line_content <=? target_indent then curr_pos
        else block_end f modified_code target_indent (next_line_end + 1)
      else curr_pos
  end.

(** Strategy 1, once the signature is known: [None] when the signature
    is not found. *)
Definition smart_delete (modified_code signature replace_block : str) : option str :=
  match find signature modified_code with
  | None => None
  | Some start_idx =>
      let line_start := from_option S 0 (rfind_upto [NL] modified_code start_idx) in
      let line_end := default (length modified_code) (find_from [NL] modified_code start_idx) in
      let target_indent := target_indent_of (slice modified_code line_start start_idx) in
      let curr_pos := block_end (length modified_code) modified_code target_indent (line_end + 1) in
      Some (take line_start modified_code ++ replace_block ++ drop curr_pos modified_code)
  end.

(** The inner loop of [_apply_soft_match]: the search lines against the
    text lines from index [i]. *)
Fixpoint lines_match (text_lines : list str) (i j : nat) (search_lines : list str) : bool :=
  match search_lines with
  | [] => true
  | s_line :: rest =>
      match text_lines !! (i + j) with
      | Some t_line =>
          if bool_decide (strip t_line = s_line) then lines_match text_lines i (S j) rest
          else false
      | None => false
      end
  end.

Fixpoint first_index (f : nat -> bool) (candidates : list nat) : option nat :=
  match candidates with
  | [] => None
  | i :: rest => if f i then Some i else first_index f rest
  end.

Definition _apply_soft_match (full_text search replace : str) : option str :=
  let search_lines :=
    map strip (filter (fun l => strip l ≠ []) (splitlines search)) in
  let text_lines := splitlines full_text in
  match search_lines with
  | [] => None
  | _ =>
      match first_index (fun i => lines_match text_lines i 0 search_lines)
                        (seq 0 (length text_lines + 1 - length search_lines)) with
      | Some i =>
          let pre_text := join [NL] (take i text_lines) in
          let post_text := join [NL] (drop (i + length search_lines) text_lines) in
          Some (pre_text ++ [NL] ++ replace ++ [NL] ++ post_text)
      | None => None
      end
  end.

(** What the messages printed by the loop say. *)
Inductive log_entry : Type :=
  | SmartDeleteFailed (signature : str)
  | PatchFailed (search_head : str).

(** What one round of the loop does with its block. *)
Inductive block_outcome : Type :=
  | Applied (modified_code : str)
  | Failed (entry : log_entry)
  | Skipped.

(** The body of the [for block in blocks[1:]] loop. A block without its
    separator or end marker is skipped by [continue]; one whose [split]
    does not give two parts raises [ValueError] at the unpacking, which
    the [except] clause turns into [continue] too. *)
Definition apply_block (modified_code block : str) : block_outcome :=
  if negb (contains SEPARATOR_LINE block) || negb (contains END_MARKER block) then Skipped
  else
    match split1 SEPARATOR block with
    | [search_block; rest] =>
        match split1 END_LINE rest with
        | [replace_block; _] =>
            let search_block := strip_chars [NL] search_block in
            let replace_block := strip_chars [NL] replace_block in
            if contains ELLIPSIS search_block then
              let signature := strip (replace ELLIPSIS [] search_block) in
              match smart_delete modified_code signature replace_block with
              | Some code' => Applied code'
              | None => Failed (SmartDeleteFailed signature)
              end
            else if contains search_block modified_code then
              Applied (replace1 search_block replace_block modified_code)
            else
              match _apply_soft_match modified_code search_block replace_block with
              | Some soft_result => Applied soft_result
              | None => Failed (PatchFailed (take 50 search_block))
              end
        | _ => Skipped
        end
    | _ => Skipped
    end.

Record patch_state : Type := PatchState {
  modified_code : str;
  applied_count : nat;
  printed : list log_entry
}.

Definition step (st : patch_state) (block : str) : patch_state :=
  match apply_block (modified_code st) block with
  | Applied code' => PatchState code' (S (applied_count st)) (printed st)
  | Failed entry => PatchState (modified_code st) (applied_count st) (printed st ++ [entry])
  | Skipped => st
  end.

(** The text the blocks are read from: what stands between the first two
    code fences when the patch text has a fence. *)
Definition unfenced (patch_text : str) : str :=
  if contains FENCE patch_text then default patch_text (split FENCE patch_text !! 1)
  else patch_text.

(** [blocks[1:]] *)
Definition patch_blocks (patch_text : str) : list str :=
  tail (split SEARCH_MARKER (unfenced patch_text)).

Definition run_blocks (original_code : str) (blocks : list str) : patch_state :=
  foldl step (PatchState original_code 0 []) blocks.

(** [apply_patches_robust(original_code, patch_text)]: the patched text
    and the messages printed. The clean-up of the previous loop's
    artifacts that follows only removes files and is left out. *)
Definition apply_patches_robust (original_code patch_text : str) : result (str * list log_entry) :=
  let blocks := patch_blocks patch_text in
  let st := run_blocks original_code blocks in
  if (applied_count st =? 0) && (0 <? length blocks)
  then Raise (ValueError "Failed to apply patches: No blocks matched.")
  else Ok (modified_code st, printed st).

(** *** Vocabulary for the properties of the loop *)

(** A block applies to a text when one of the three tiers succeeds. *)
Definition applies (code block : str) : bool :=
  match apply_block code block with Applied _ => true | _ => false end.

(** The text after a round. *)
Definition after_block (code block : str) : str :=
  match apply_block code block with Applied code' => code' | _ => code end.

(** The message of a round, when it prints one. *)
Definition message_of (code block : str) : option log_entry :=
  match apply_block code block with Failed entry => Some entry | _ => None end.

(** The texts the blocks meet, one per block. *)
Fixpoint texts_met (code : str) (blocks : list str) : list str :=
  match blocks with
  | [] => []
  | b :: bs => code :: texts_met (after_block code b) bs
  end.

(** A line ends the block when it is not blank and its indentation is at
    most [w]; the loop passes over every other line. *)
Definition dedented (w : nat) (line : str) : bool :=
  negb (bool_decide (strip line = [])) && (current_indent_of line <=? w).

End Patcher.

(** ** [core/graph.py]: the dependency graph *)

Module Graph.
Import PyStr.

(** [networkx.DiGraph], as far as the builder uses it: a set of nodes and
    a set of directed edges; [add_edge] adds both ends as nodes. *)
Record digraph : Type := DiGraph {
  nodes : gset str;
  edges : gset (str * str)
}.

Definition empty_graph : digraph := DiGraph ∅ ∅.

Definition add_node (g : digraph) (n : str) : digraph :=
  DiGraph ({[n]} ∪ nodes g) (edges g).

Definition add_edge (g : digraph) (u v : str) : digraph :=
  DiGraph ({[u; v]} ∪ nodes g) ({[(u, v)]} ∪ edges g).

(** One round of the loop of [_build_module_map]. *)
Definition add_module (module_to_path : gmap str str) (path_str : str) : gmap str str :=
  if negb (endswith ".py" path_str) then module_to_path
  else
    let module_name := replace "\" "." (replace "/" "." (take (length path_str - 3) path_str)) in
    let module_to_path := <[module_name := path_str]> module_to_path in
    if endswith "__init__.py" path_str then
      let pkg_name := replace "\" "." (replace "/" "." (take (length path_str - 12) path_str)) in
      <[pkg_name := path_str]> module_to_path
    else module_to_path.

Definition _build_module_map (module_to_path : gmap str str) (paths : list str) : gmap str str :=
  foldl add_module module_to_path paths.

(** The loop [for i in range(len(parts), 0, -1)] of [_resolve_import]. *)
Fixpoint peel_back (module_to_path : gmap str str) (parts : list str) (i : nat) : option str :=
  match i with
  | 0 => None
  | S j =>
      let candidate_module := join "." (take i parts) in
      match module_to_path !! candidate_module with
      | Some path => Some path
      | None => peel_back module_to_path parts j
      end
  end.

Definition _resolve_import (module_to_path : gmap str str) (import_str : str) : option str :=
  let parts := split_char "." import_str in
  peel_back module_to_path parts (length parts).

(** The state of a [DependencyGraph] object. *)
Record dependency_graph : Type := DependencyGraph {
  graph : digraph;
  is_built : bool;
  _module_to_path : gmap str str
}.

(** What a build keeps besides the graph: the imports counted as resolved
    and the set of unresolved import strings. *)
Record build_state : Type := BuildState {
  bs_graph : digraph;
  resolved_count : nat;
  unresolved : gset str
}.

(** The body shared by the two edge loops: resolve, then add the edge
    unless the target is the importer. [if target_path:] is false for
    [None] and for the empty string. *)
Definition add_import (module_to_path : gmap str str) (importer_path : str)
    (st : build_state) (import_str : str) : build_state :=
  match _resolve_import module_to_path import_str with
  | Some target_path =>
      if bool_decide (target_path = []) then
        BuildState (bs_graph st) (resolved_count st) ({[import_str]} ∪ unresolved st)
      else if bool_decide (target_path ≠ importer_path) then
        BuildState (add_edge (bs_graph st) importer_path target_path)
                   (S (resolved_count st)) (unresolved st)
      else st
  | None => BuildState (bs_graph st) (resolved_count st) ({[import_str]} ∪ unresolved st)
  end.

(** The index as the two queries see it: the rows of [files(id, path)]
    and of [imports(source_file_id, module_name)], in the order the
    queries return them; [imports] is [None] when the second query raises
    (a missing or malformed table). *)
Record database : Type := Database {
  files : list (Z * str);
  imports : option (list (Z * str))
}.

(** The state the method leaves, and whether it returned ([true]) or
    raised ([false]). *)
Definition _build_from_database (self : dependency_graph) (db : database)
    : dependency_graph * bool :=
  let g := foldl (fun g row => add_node g row.2) (graph self) (files db) in
  let id_to_path : gmap Z str := foldl (fun m row => <[row.1 := row.2]> m) ∅ (files db) in
  let all_paths := map snd (files db) in
  let module_to_path := _build_module_map (_module_to_path self) all_paths in
  match imports db with
  | None => (DependencyGraph g (is_built self) module_to_path, false)
  | Some rows =>
      let st :=
        foldl (fun st row =>
                 match id_to_path !! row.1 with
                 | None => st
                 | Some importer_path => add_import module_to_path importer_path st row.2
                 end)
              (BuildState g 0 ∅) rows in
      (DependencyGraph (bs_graph st) (is_built self) module_to_path, true)
  end.

(** An artifact map: the items of the dict, in order. *)
Definition _build_from_artifacts (self : dependency_graph)
    (artifacts : list (str * list str)) : dependency_graph :=
  let all_paths := map fst artifacts in
  let g := foldl add_node (graph self) all_paths in
  let module_to_path := _build_module_map (_module_to_path self) all_paths in
  let st :=
    foldl (fun st item =>
             if bool_decide (item.1 ∈ nodes (bs_graph st)) then
               foldl (add_import module_to_path item.1) st item.2
             else st)
          (BuildState g 0 ∅) artifacts in
  DependencyGraph (bs_graph st) (is_built self) module_to_path.

(** [build(from_artifacts)]: the graph and the module map are cleared
    first. [db] is [None] when opening the index or its first query
    raises; an exception is caught and leaves [is_built] false. *)
Definition build (self : dependency_graph) (db : option database)
    (from_artifacts : option (list (str * list str))) : dependency_graph :=
  let cleared := DependencyGraph empty_graph (is_built self) ∅ in
  match from_artifacts with
  | Some artifacts =>
      let built := _build_from_artifacts cleared artifacts in
      DependencyGraph (graph built) true (_module_to_path built)
  | None =>
      match db with
      | Some d =>
          let '(built, returned) := _build_from_database cleared d in
          DependencyGraph (graph built) returned (_module_to_path built)
      | None => DependencyGraph empty_graph false ∅
      end
  end.

Definition has_self_loop (g : digraph) : Prop := ∃ n, (n, n) ∈ edges g.

(** No edge of the graph goes from a node to itself. *)
Definition no_self_loops (g : digraph) : Prop := ∀ u v, (u, v) ∈ edges g → u ≠ v.

End Graph.

(** ** [core/planner/utils.py]: the fuzzy file resolver *)

Module Resolver.
Import PyStr.
#[local] Open Scope float_scope.

(** The strategy tags ['exact'], ['suffix'], ['filename'], ['fuzzy']. *)
Inductive match_kind : Type := Exact | Suffix | Filename | Fuzzy.

Record FileMatch : Type := mkFileMatch {
  file_id : Z;
  path : str;
  score : float;
  match_type : match_kind
}.

(** A row of [SELECT id, path FROM files]; the table is the list of its
    rows in the order a query without [ORDER BY] visits them. *)
Abbreviation row := (Z * str)%type.

(** SQLite's [LIKE] compares the letters A-Z without regard to case. *)
Definition like_char_eq (a b : ascii) : bool :=
  let fold c := let n := nat_of_ascii c in
                if (65 <=? n)%nat && (n <=? 90)%nat then (n + 32)%nat else n in
  (fold a =? fold b)%nat.

(** [s LIKE pattern]: [%] stands for any run of characters, [_] for any
    one character. *)
Fixpoint sql_like (pattern : str) : str -> bool :=
  match pattern with
  | [] => fun s => match s with [] => true | _ => false end
  | p :: pattern' =>
      if Ascii.eqb p "%" then
        fix any_run (s : str) : bool :=
          sql_like pattern' s || match s with [] => false | _ :: s' => any_run s' end
      else if Ascii.eqb p "_" then
        fun s => match s with [] => false | _ :: s' => sql_like pattern' s' end
      else
        fun s => match s with
                 | [] => false
                 | c :: s' => like_char_eq p c && sql_like pattern' s'
                 end
  end.

(** [max(items, key=...)] on a non-empty sequence, [best] being the
    maximum so far: a later item replaces it only when its key is
    strictly greater. *)
Fixpoint max_from {A K : Type} (gt : K -> K -> bool) (key : A -> K) (best : A) (items : list A) : A :=
  match items with
  | [] => best
  | x :: rest =>
      if gt (key x) (key best) then max_from gt key x rest else max_from gt key best rest
  end.

Definition py_max {A K : Type} (gt : K -> K -> bool) (key : A -> K) (items : list A) : option A :=
  match items with
  | [] => None
  | x :: rest => Some (max_from gt key x rest)
  end.

Definition float_gt (a b : float) : bool := b <? a.
Definition nat_gt (a b : nat) : bool := (b <? a)%nat.

(** [len(set(a) & set(b))] *)
Definition common_count `{Countable A} (a b : list A) : nat :=
  size ((list_to_set a : gset A) ∩ list_to_set b).

(** [len(set(a))] *)
Definition distinct_count `{Countable A} (a : list A) : nat :=
  size (list_to_set a : gset A).

Definition _path_similarity (p1 p2 : str) : float :=
  let parts1 := split_char "/" p1 in
  let parts2 := split_char "/" p2 in
  let common := common_count parts1 parts2 in
  if bool_decide (parts1 ≠ []) || bool_decide (parts2 ≠ []) then
    float_of_nat common / float_of_nat (length parts1 `max` length parts2)
  else 0.

Definition _levenshtein_ratio (s1 s2 : str) : float :=
  if bool_decide (s1 = []) || bool_decide (s2 = []) then 0
  else if contains s1 s2 || contains s2 s1 then
    float_of_nat (length s1 `max` length s2)
    / float_of_nat ((length s1 `max` length s2) `max` 1)
  else
    float_of_nat (common_count s1 s2)
    / float_of_nat (distinct_count s1 `max` distinct_count s2).

Definition _exact_match (table : list row) (path : str) : option FileMatch :=
  match filter (fun r : row => r.2 = path) table with
  | r :: _ => Some (mkFileMatch r.1 r.2 1 Exact)
  | [] => None
  end.

Definition _suffix_match (table : list row) (path : str) : option FileMatch :=
  let rows := filter (fun r : row => sql_like ("%" ++ path) r.2 = true) table in
  match py_max float_gt (fun r : row => _path_similarity path r.2) rows with
  | None => None
  | Some best =>
      let sim := _path_similarity path best.2 in
      Some (mkFileMatch best.1 best.2 (0.8 * sim) Suffix)
  end.

Definition _filename_match (table : list row) (path : str) : option FileMatch :=
  let filename := default [] (last (split_char "/" path)) in
  let rows := filter (fun r : row => sql_like ("%" ++ filename) r.2 = true) table in
  let path_parts := split_char "/" path in
  match py_max nat_gt (fun r : row => common_count (split_char "/" r.2) path_parts) rows with
  | None => None
  | Some best =>
      let ratio := float_of_nat (common_count (split_char "/" best.2) path_parts)
                   / float_of_nat (distinct_count path_parts) in
      Some (mkFileMatch best.1 best.2 (0.4 * ratio) Filename)
  end.

Definition _fuzzy_match (table : list row) (path : str) : option FileMatch :=
  let scored := map (fun f : row => (f, _levenshtein_ratio path f.2)) table in
  match py_max float_gt (fun x : row * float => x.2) scored with
  | None => None
  | Some (best, score) =>
      if 0.5 <=? score then Some (mkFileMatch best.1 best.2 (0.6 * score) Fuzzy) else None
  end.

Definition strategies (table : list row) : list (str -> option FileMatch) :=
  [_exact_match table; _suffix_match table; _filename_match table; _fuzzy_match table].

(** The loop over the strategies, with its early [break]. *)
Fixpoint best_of (strategies : list (str -> option FileMatch)) (normalized : str)
    (best_match : option FileMatch) : option FileMatch :=
  match strategies with
  | [] => best_match
  | strategy :: rest =>
      match strategy normalized with
      | Some m =>
          if match best_match with
             | None => true
             | Some b => float_gt (score m) (score b)
             end
          then if 0.95 <=? score m then Some m else best_of rest normalized (Some m)
          else best_of rest normalized best_match
      | None => best_of rest normalized best_match
      end
  end.

Definition normalize (path_fragment : str) : str := strip (replace "\" "/" path_fragment).

(** The best candidate of [resolve], before the confidence gate. *)
Definition best_candidate (table : list row) (path_fragment : str) : option FileMatch :=
  best_of (strategies table) (normalize path_fragment) None.

Definition resolve (table : list row) (path_fragment : str) : option FileMatch :=
  match best_candidate table path_fragment with
  | Some best_match => if score best_match <? 0.3 then None else Some best_match
  | None => None
  end.

End Resolver.

(** ** [core/worker]: the strategy dispatcher and its helpers *)

Module Worker.
Import PyStr.

(** *** [core/worker/utils.py] *)

(** [_clean_llm_code]. When the stripped text starts with a fence,
    [lines] is a non-empty list and the test [lines.startswith(...)]
    raises [AttributeError]: a list has no such attribute. For an empty
    [lines] neither fence test runs and the joined text is returned. *)
Definition _clean_llm_code (raw_code : str) : result str :=
  let raw_code := strip raw_code in
  if startswith "```" raw_code then
    let lines := splitlines raw_code in
    match lines with
    | _ :: _ => Raise (AttributeError "'list' object has no attribute 'startswith'")
    | [] => Ok (strip (join [NL] lines))
    end
  else Ok (strip raw_code).

(** [_is_suspicious]: [len(proposed) < len(original) * 0.3] compares an
    integer with a float. *)
Definition _is_suspicious (original proposed : str) : bool :=
  if bool_decide (original = []) then false
  else if (float_of_nat (length proposed) <? float_of_nat (length original) * 0.3)%float
          && (500 <? length original) then true
  else if contains "As an AI" proposed || contains "I cannot" proposed then true
  else false.

(** *** [core/worker/strategies.py] *)

Definition TARGET_MARKER : str := "<<<<<<< TARGET_CONTENT".
Definition MID_MARKER : str := "=======".
Definition SOURCE_MARKER : str := "<<<<<<< SOURCE_CONTENT".
Definition END_MARKER : str := ">>>>>>>".

Inductive warning : Type :=
  | TruncatedOutput
  | SourceSyntaxError.

Record extracted : Type := Extracted {
  target_content : str;
  source_content : str;
  warnings : list warning
}.

(** How [ast.parse] of the standard library ends on a text: it returns
    a tree, it raises [SyntaxError], or it raises another exception (a
    [ValueError] for a text that holds a null character, in the versions
    of Python that do not report it as a [SyntaxError]). *)
Inductive parse_outcome : Type :=
  | Parsed
  | RaisedSyntaxError
  | RaisedOther (e : exn).

(** The [try] block of [_extract_and_modify], from the generator's
    response on. [ast_parse] stands for [ast.parse]; [source_is_py] for
    [instruction['source_file'].endswith('.py')]. Only a [SyntaxError] of
    the parser is turned into a warning; any other exception is printed
    and raised again. *)
Definition _extract_and_modify (ast_parse : str -> parse_outcome) (source_is_py : bool)
    (raw_response : str) : result extracted :=
  match find TARGET_MARKER raw_response, find MID_MARKER raw_response with
  | Some t_start, Some t_end =>
      let target_content := strip (slice raw_response (t_start + length TARGET_MARKER) t_end) in
      match find_from SOURCE_MARKER raw_response t_end with
      | None => Raise (ValueError "Could not find SOURCE_CONTENT block start")
      | Some s_start =>
          let '(source_content, truncated) :=
            match find_from END_MARKER raw_response s_start with
            | None => (strip (drop (s_start + length SOURCE_MARKER) raw_response), [TruncatedOutput])
            | Some s_end =>
                (strip (slice raw_response (s_start + length SOURCE_MARKER) s_end), [])
            end in
          match _clean_llm_code target_content with
          | Raise e => Raise e
          | Ok target_content =>
              match _clean_llm_code source_content with
              | Raise e => Raise e
              | Ok source_content =>
                  if source_is_py then
                    match ast_parse source_content with
                    | Parsed => Ok (Extracted target_content source_content truncated)
                    | RaisedSyntaxError =>
                        Ok (Extracted target_content source_content
                              (truncated ++ [SourceSyntaxError]))
                    | RaisedOther e => Raise e
                    end
                  else Ok (Extracted target_content source_content truncated)
              end
          end
      end
  | _, _ => Raise (ValueError "Could not find TARGET_CONTENT block delimiters")
  end.

(** A ChangeStep as the dispatcher reads it, a [FinalPlanStep] of the
    plan schema: [instruction.get(key, default)] of each key;
    [target_file] is a string; [source_file] is [None] when the key is
    absent or holds no string. *)
Record instruction : Type := Instruction {
  action : str;
  target_file : str;
  source_file : option str;
  description : str;
  detected_entities : list str
}.

(** An entry of the Extraction Map. *)
Record extraction : Type := Extraction {
  moved_to : list str;
  symbols : list str
}.

Definition _looks_like_delete (ins : instruction) : bool :=
  let desc := lower (description ins) in
  let action := upper (action ins) in
  if bool_decide (action = "DELETE") then true
  else if bool_decide (action = "CREATE") then false
  else if existsb (fun k => contains k desc)
                  ["delete file" : str; "remove file" : str; "drop file" : str] then true
  else
    let has_delete_keyword :=
      existsb (fun k => contains k desc) ["delete" : str; "drop" : str; "eliminate" : str] in
    let is_remove_entity :=
      contains "remove" desc
      && (contains "function" desc || contains "class" desc || contains "method" desc) in
    has_delete_keyword || is_remove_entity.

(** What a path of the project holds, when it holds something: a file
    with its text, or something whose read raises (a directory, a file
    that is not UTF-8). *)
Inductive entry : Type :=
  | File (content : str)
  | Unreadable (e : exn).

(** What [_process_change] does with the step: the engine it hands the
    step to, with the text of the source file where the branch reads it
    first, or the exception raised before any engine is called.
    [MissingSourceFile] is the [KeyError] of [instruction['source_file']]
    for an absent key, or the [TypeError] of the path for a null. *)
Inductive route : Type :=
  | SurgicalCreate (source_content : str)
  | CstRemoval (entities : list str)
  | ExtractAndModify (source_content : str)
  | MissingSourceFile
  | Raises (e : exn)
  | CreateFullRewrite
  | SemanticDelete
  | PatchLargeFile
  | FullRewrite.

(** A project that holds one file. *)
Definition single_file (path content : str) : str -> option entry :=
  fun p => if bool_decide (p = path) then Some (File content) else None.

(** Case 1 reads the source file when it exists and goes on with an
    empty text when it does not. *)
Definition surgical_create_from (project : str -> option entry) (source_file : str) : route :=
  match project source_file with
  | Some (File source_content) => SurgicalCreate source_content
  | Some (Unreadable e) => Raises e
  | None => SurgicalCreate []
  end.

(** The [EXTRACT_AND_MODIFY] branch reads [instruction['source_file']]
    and then the file itself, which must exist: the test
    [target_file in str(instruction.get('target_file'))] holds for every
    string, so the text passed by the caller is never used. *)
Definition extract_and_modify_from (project : str -> option entry)
    (source_file : option str) : route :=
  match source_file with
  | None => MissingSourceFile
  | Some source_file =>
      match project source_file with
      | Some (File source_content) => ExtractAndModify source_content
      | Some (Unreadable e) => Raises e
      | None => Raises FileNotFoundError
      end
  end.

(** The deletion candidates of case 2: the declared entities, or the
    symbols mapped for the target when none are declared. *)
Definition deletion_entities (ins : instruction) (extraction_map : gmap str extraction)
    : list str :=
  let mapped_symbols :=
    match extraction_map !! target_file ins with
    | Some e => symbols e
    | None => []
    end in
  let entities := detected_entities ins in
  if bool_decide (entities = []) && negb (bool_decide (mapped_symbols = []))
  then mapped_symbols else entities.

Definition is_delete (desc : str) : bool :=
  contains "remove" (lower desc) || contains "delete" (lower desc)
  || contains "cleanup" (lower desc).

(** The branch [_process_change] takes. [project] gives what a path
    holds under the project root, [None] where nothing exists. An
    extraction map that is [None] or empty is the empty map. *)
Definition _process_change (project : str -> option entry) (original : str)
    (ins : instruction) (extraction_map : gmap str extraction) : route :=
  let action := upper (action ins) in
  let desc := description ins in
  if bool_decide (action = "CREATE")
     && match source_file ins with Some (_ :: _) => true | _ => false end
  then surgical_create_from project (default [] (source_file ins))
  else
    let entities := deletion_entities ins extraction_map in
    if bool_decide (action = "MODIFY") && is_delete desc
       && negb (bool_decide (entities = []))
    then CstRemoval entities
    else if bool_decide (action = "EXTRACT_AND_MODIFY")
    then extract_and_modify_from project (source_file ins)
    else if bool_decide (action = "CREATE") then CreateFullRewrite
    else if _looks_like_delete ins then SemanticDelete
    else if 600 <? length (splitlines original) then PatchLargeFile
    else FullRewrite.

(** *** [core/worker/__init__.py] *)

(** Step 4 of [create_diff_draft]: every file of the result is checked
    with an empty original and put in the working cache; the paths
    flagged are those the warning is printed for. *)
Definition stage_files (working : gmap str str) (files_to_update : list (str * str))
    : gmap str str * list str :=
  foldl (fun '(working, flagged) '(path, content) =>
           let flagged := if _is_suspicious [] content then flagged ++ [path] else flagged in
           (<[path := content]> working, flagged))
        (working, []) files_to_update.

End Worker.

(** ** [core/ast_patcher.py]: removal on the abstract syntax tree *)

Module AstPatcher.

(** A statement of the tree [ast.parse] returns, as far as the
    transformer looks at it: the three kinds of definition with their
    names, and any other statement; [detail] stands for what else the
    node holds (arguments, decorators, expressions), [body] for the
    statements nested in it. *)
Inductive node : Type :=
  | FunctionDef (name : str) (detail : str) (body : list node)
  | AsyncFunctionDef (name : str) (detail : str) (body : list node)
  | ClassDef (name : str) (detail : str) (body : list node)
  | Stmt (detail : str) (body : list node).

(** The standard library's [ast] module: [parse] is [None] when it
    raises [SyntaxError]; [unparse] renders a module body. *)
Record ast_lib : Type := AstLib {
  parse : str -> option (list node);
  unparse : list node -> str
}.

(** [DeletionTransformer.visit]: a definition whose name is in
    [to_delete] is dropped ([return None]); any other node is visited
    generically, its list of children rebuilt from what the visits
    return. *)
Fixpoint visit (to_delete : list str) (n : node) : option node :=
  match n with
  | FunctionDef name detail body =>
      if bool_decide (name ∈ to_delete) then None
      else Some (FunctionDef name detail (omap (visit to_delete) body))
  | AsyncFunctionDef name detail body =>
      if bool_decide (name ∈ to_delete) then None
      else Some (AsyncFunctionDef name detail (omap (visit to_delete) body))
  | ClassDef name detail body =>
      if bool_decide (name ∈ to_delete) then None
      else Some (ClassDef name detail (omap (visit to_delete) body))
  | Stmt detail body => Some (Stmt detail (omap (visit to_delete) body))
  end.

Definition visit_module (to_delete : list str) (tree : list node) : list node :=
  omap (visit to_delete) tree.

Definition delete_definitions (lib : ast_lib) (source : str) (names : list str) : result str :=
  if bool_decide (names = []) then Ok source
  else
    match parse lib source with
    | None => Raise SyntaxError
    | Some tree => Ok (unparse lib (visit_module names tree))
    end.

(** The names of the definitions of a tree, at every depth. *)
Fixpoint defined_names (n : node) : list str :=
  match n with
  | FunctionDef name _ body | AsyncFunctionDef name _ body | ClassDef name _ body =>
      name :: concat (map defined_names body)
  | Stmt _ body => concat (map defined_names body)
  end.

(** *** A parse written out by hand *)

(** What [ast.unparse] writes for a statement: its header and, one
    level deeper, the statements of its body. Comments are not part of
    the tree, so none is written. *)
Fixpoint render (indent : str) (n : node) : str :=
  match n with
  | FunctionDef name detail body =>
      indent ++ "def " ++ name ++ detail ++ ":"
      ++ concat (map (fun c => PyStr.NL :: render ("    " ++ indent) c) body)
  | AsyncFunctionDef name detail body =>
      indent ++ "async def " ++ name ++ detail ++ ":"
      ++ concat (map (fun c => PyStr.NL :: render ("    " ++ indent) c) body)
  | ClassDef name detail body =>
      indent ++ "class " ++ name ++ detail ++ ":"
      ++ concat (map (fun c => PyStr.NL :: render ("    " ++ indent) c) body)
  | Stmt detail body =>
      indent ++ detail
      ++ concat (map (fun c => PyStr.NL :: render ("    " ++ indent) c) body)
  end.

(** The library on one source: [tree] is the parse of [source]; a module
    of definitions is rendered with a blank line between them and no
    newline at the end. *)
Definition reference_ast (source : str) (tree : list node) : ast_lib :=
  AstLib (fun s => if decide (s = source) then Some tree else None)
         (fun t => PyStr.join [PyStr.NL; PyStr.NL] (map (render []) t)).

(** A module with a function [foo] and a function [bar] whose body has
    a comment, and its parse. *)
Definition commented_source : str :=
  PyStr.text ["def foo():"; "    pass"; ""; "def bar():"; "    return 1  # one"].

Definition commented_tree : list node :=
  [FunctionDef "foo" "()" [Stmt "pass" []];
   FunctionDef "bar" "()" [Stmt "return 1" []]].

End AstPatcher.

(** ** [core/cst_patcher.py]: removal on the concrete syntax tree *)

Module CstPatcher.

(** A node of the lossless tree [libcst.parse_module] returns: a
    function or class definition with its name, another node, or a token
    (code, whitespace or comment); [children] are the parts of a node in
    source order. *)
Inductive node : Type :=
  | FunctionDef (name : str) (children : list node)
  | ClassDef (name : str) (children : list node)
  | Other (children : list node)
  | Token (text : str).

(** The library: [parse_module] is [None] when it raises; [code] is
    [Module.code], the text of a module that has the given parts;
    [code_for_node] is [Module.code_for_node], the text of one part. *)
Record cst_lib : Type := CstLib {
  parse_module : str -> option (list node);
  code : list node -> str;
  code_for_node : node -> str
}.

Definition CR : ascii := "013"%char.

(** What the text of a module may lack at its end, compared with the
    texts of its parts: nothing, or the newline that ends the last part,
    when the source had no newline at its end. *)
Definition closing_newlines : list str := [[]; [PyStr.NL]; [CR; PyStr.NL]; [CR]].

(** [rendered] is the text of a module whose parts, written one after
    the other, give [parts_text]. A module with nothing left in it is
    rendered as the library chooses (a newline). *)
Definition closes (parts_text rendered : str) : Prop :=
  parts_text = [] ∨ ∃ nl, nl ∈ closing_newlines ∧ rendered ++ nl = parts_text.

(** What makes the tree lossless: rendering the parsed tree gives the
    source back, and a module is rendered by writing its parts one after
    the other, up to the newline that closes the file. *)
Definition lossless (lib : cst_lib) : Prop :=
  (∀ source tree, parse_module lib source = Some tree → code lib tree = source)
  ∧ (∀ tree, closes (concat (map (code_for_node lib) tree)) (code lib tree)).

(** [node.visit(RemovalTransformer(names))]: the children are visited
    first, then [leave_FunctionDef] or [leave_ClassDef] removes the node
    from its parent when its name is in [names]. *)
Fixpoint visit (names : list str) (n : node) : option node :=
  match n with
  | FunctionDef name children =>
      let updated := FunctionDef name (omap (visit names) children) in
      if bool_decide (name ∈ names) then None else Some updated
  | ClassDef name children =>
      let updated := ClassDef name (omap (visit names) children) in
      if bool_decide (name ∈ names) then None else Some updated
  | Other children => Some (Other (omap (visit names) children))
  | Token text => Some (Token text)
  end.

Definition visit_module (names : list str) (tree : list node) : list node :=
  omap (visit names) tree.

(** An error of the library is printed and raised again. *)
Definition remove_definitions_cst (lib : cst_lib) (source_code : str) (names : list str)
    : result str :=
  match parse_module lib source_code with
  | None => Raise SyntaxError
  | Some tree => Ok (code lib (visit_module names tree))
  end.

Fixpoint defined_names (n : node) : list str :=
  match n with
  | FunctionDef name children | ClassDef name children =>
      name :: concat (map defined_names children)
  | Other children => concat (map defined_names children)
  | Token _ => []
  end.

(** The text of a tree: its tokens in order. *)
Fixpoint tokens (n : node) : str :=
  match n with
  | FunctionDef _ children | ClassDef _ children | Other children =>
      concat (map tokens children)
  | Token text => text
  end.

(** *** A parse written out by hand *)

(** The library on one source that ends with a newline: [tree] is the
    parse of [source], and a tree is rendered by writing its tokens out
    in order; a module with no token left is rendered as a newline. *)
Definition reference_cst (source : str) (tree : list node) : cst_lib :=
  CstLib (λ s, if decide (s = source) then Some tree else None)
         (λ t, match concat (map tokens t) with [] => [PyStr.NL] | x => x end)
         tokens.

(** The parse of a module with a function [foo] and a class [bar] that
    has a method named [foo]; the blank line before the class belongs to
    the class node, as its leading line. *)
Definition nested_source : str :=
  PyStr.text ["def foo():"; "    pass"; ""; "class bar:"; "    x = 1"; "    def foo(self):"; "        pass"].

Definition nested_tree : list node :=
  [FunctionDef "foo"
     [Token (PyStr.text ["def foo():"]);
      Other [Token (PyStr.text ["    pass"])]];
   ClassDef "bar"
     [Token (PyStr.text [""]);
      Token (PyStr.text ["class bar:"]);
      Other
        [Token (PyStr.text ["    x = 1"]);
         FunctionDef "foo"
           [Token (PyStr.text ["    def foo(self):"]);
            Other [Token (PyStr.text ["        pass"])]]]]].

(** The parse of a module with a function [foo] and a class [bar] that
    holds no definition. *)
Definition plain_source : str :=
  PyStr.text ["def foo():"; "    pass"; ""; "class bar:"; "    x = 1"].

Definition plain_foo : node :=
  FunctionDef "foo"
    [Token (PyStr.text ["def foo():"]);
     Other [Token (PyStr.text ["    pass"])]].

Definition plain_bar : node :=
  ClassDef "bar"
    [Token (PyStr.text [""]);
     Token (PyStr.text ["class bar:"]);
     Other [Token (PyStr.text ["    x = 1"])]].

Definition plain_tree : list node := [plain_foo; plain_bar].

End CstPatcher.

(** ** [core/graph.py]: the queries, and their caller in
    [core/planner/repository.py] *)

Module GraphQueries.
Import PyStr Graph.

(** [graph.has_node], [graph.predecessors] and [graph.successors] of
    [networkx.DiGraph]. *)
Definition has_node (g : digraph) (n : str) : bool := bool_decide (n ∈ nodes g).

Definition predecessors (g : digraph) (n : str) : gset str :=
  set_map fst (filter (λ e : str * str, e.2 = n) (edges g)).

Definition successors (g : digraph) (n : str) : gset str :=
  set_map snd (filter (λ e : str * str, e.1 = n) (edges g)).

(** [if not self.is_built: self.build()]: a build from the index. *)
Definition ensure_built (self : dependency_graph) (db : option database) : dependency_graph :=
  if is_built self then self else build self db None.

(** The set returned, and the state the call leaves. *)
Definition get_callers_of (self : dependency_graph) (db : option database) (file_path : str)
    : gset str * dependency_graph :=
  let self := ensure_built self db in
  (if has_node (graph self) file_path then predecessors (graph self) file_path else ∅, self).

Definition get_dependencies_of (self : dependency_graph) (db : option database) (file_path : str)
    : gset str * dependency_graph :=
  let self := ensure_built self db in
  (if has_node (graph self) file_path then successors (graph self) file_path else ∅, self).


(** *** Vocabulary for the properties of the build *)

(** The nodes of a graph are the paths of [P], and its edges join paths
    of [P]. *)
Definition spans (P : gset str) (g : digraph) : Prop :=
  nodes g = P ∧ ∀ u v, (u, v) ∈ edges g → u ∈ P ∧ v ∈ P.

End GraphQueries.

(** *** Vocabulary for the properties of the resolver *)

Module ResolverMatch.
Import PyStr Resolver.
#[local] Open Scope float_scope.

(** What the strategy tagged [kind] requires of the path it returns,
    [normalized] being the fragment after normalisation. *)
Definition matches_by (kind : match_kind) (normalized p : str) : Prop :=
  match kind with
  | Exact => p = normalized
  | Suffix => sql_like ("%" ++ normalized) p = true
  | Filename => sql_like ("%" ++ default [] (last (split_char "/" normalized))) p = true
  | Fuzzy => (0.5 <=? _levenshtein_ratio normalized p) = true
  end.

Definition sound (table : list row) (normalized : str) (m : FileMatch) : Prop :=
  (file_id m, path m) ∈ table ∧ matches_by (match_type m) normalized (path m).

End ResolverMatch.

(** ** [core/worker]: the calls to the generator *)

Module WorkerLlm.
Import PyStr Worker.

(** How a call ends: it returns, it raises [RuntimeError], or an
    exception of a callee passes through it. *)
Inductive outcome (A : Type) : Type :=
  | Returned (a : A)
  | RuntimeError (msg : str)
  | Raised (e : exn).
Arguments Returned {A} a.
Arguments RuntimeError {A} msg.
Arguments Raised {A} e.

(** The prompts sent so far, each with its system prompt, oldest first. *)
Abbreviation sent_log := (list (str * str)).

Definition EXHAUSTED : str := "LLM failed to generate valid syntax after 3 attempts.".

(** What a rejected draft adds to the user prompt; [e] is the text of
    the [SyntaxError]. *)
Definition feedback (e : str) : str :=
  [NL; NL] ++ "ERROR: Your previous code had a SyntaxError: " ++ e ++ [NL]
  ++ "Fix it and return the full valid code.".

Definition looks_like_python (original_code : option str) : bool :=
  match original_code with
  | Some (c :: o) => contains "def " (c :: o)
  | _ => false
  end.

Definition should_validate (original_code : option str) (raw : str) : bool :=
  negb (contains "<<<<<<<" raw)
  && (looks_like_python original_code || startswith "import " raw || startswith "from " raw).

Section Generator.

(** [self._call_llm(user_prompt, system_prompt)], the generator being
    what it is after [n] earlier calls: the stripped reply, or the message
    of the [RuntimeError] raised. *)
Variable _call_llm : nat -> str -> str -> str + str.

(** [ast.parse(code)]: [None] when the text is accepted, or the text of
    the [SyntaxError]. *)
Variable ast_parse : str -> option str.

Definition _validate_syntax (code : str) : bool :=
  match ast_parse code with None => true | Some _ => false end.

(** The [for attempt in range(3)] loop of [_call_llm_with_retry], with
    [n] rounds left; the statement after the loop raises. *)
Fixpoint attempts (n : nat) (sent : sent_log) (user_prompt system_prompt : str)
    (original_code : option str) (validate_syntax : bool) : outcome str * sent_log :=
  match n with
  | 0 => (RuntimeError EXHAUSTED, sent)
  | S n' =>
      let sent' := sent ++ [(user_prompt, system_prompt)] in
      match _call_llm (length sent) user_prompt system_prompt with
      | inr msg => (RuntimeError msg, sent')
      | inl raw =>
          match _clean_llm_code raw with
          | Raise e => (Raised e, sent')
          | Ok raw =>
              if negb validate_syntax then (Returned raw, sent')
              else if should_validate original_code raw then
                match ast_parse raw with
                | None => (Returned raw, sent')
                | Some e =>
                    attempts n' sent' (user_prompt ++ feedback e) system_prompt
                             original_code validate_syntax
                end
              else (Returned raw, sent')
          end
      end
  end.

Definition _call_llm_with_retry (sent : sent_log) (user_prompt system_prompt : str)
    (original_code : option str) (validate_syntax : bool) : outcome str * sent_log :=
  attempts 3 sent user_prompt system_prompt original_code validate_syntax.

(** [_full_rewrite]; [prompt] is what [build_rewrite_prompt] returns. *)
Definition _full_rewrite (sent : sent_log) (prompt original : str) : outcome str * sent_log :=
  _call_llm_with_retry sent prompt "Output ONLY raw Python code." (Some original) true.

(** [_patch_large_file]; [patch_prompt] and [rewrite_prompt] are what
    [build_patch_prompt] and [build_rewrite_prompt] return. *)
Definition _patch_large_file (sent : sent_log) (patch_prompt rewrite_prompt original : str)
    : outcome str * sent_log :=
  let system_prompt : str := "Output ONLY SEARCH/REPLACE blocks." in
  let sent' := sent ++ [(patch_prompt, system_prompt)] in
  match _call_llm (length sent) patch_prompt system_prompt with
  | inr msg => (RuntimeError msg, sent')
  | inl patch =>
      match Patcher.apply_patches_robust original patch with
      | Raise e => (Raised e, sent')
      | Ok (patched_content, _) =>
          if _validate_syntax patched_content then (Returned patched_content, sent')
          else _full_rewrite sent' rewrite_prompt original
      end
  end.

End Generator.

End WorkerLlm.

(** *** Generators and parsers written out by hand *)

Module WorkerLlmExamples.
Import PyStr WorkerLlm.

(** A generator whose first draft has a syntax error and whose later
    drafts are right, and a parser that accepts the right draft only. *)
Definition second_draft_right (n : nat) (user_prompt system_prompt : str) : str + str :=
  match n with
  | 0 => inl ("import os(" : str)
  | _ => inl ("import os" : str)
  end.

Definition accepts_import_os (code : str) : option str :=
  if bool_decide (code = "import os") then None else Some ("invalid syntax" : str).

(** A generator that answers with one search/replace block. *)
Definition one_block (search replacement : string) (n : nat) (user_prompt system_prompt : str)
    : str + str :=
  inl (text ["<<<<<<< SEARCH"; search; "======="; replacement; ">>>>>>> REPLACE"]).

(** A parser that rejects every text but one. *)
Definition accepts_only (good : str) (code : str) : option str :=
  if bool_decide (code = good) then None else Some ("invalid syntax" : str).

End WorkerLlmExamples.

(** ** [core/worker/strategies.py]: the Extraction Map *)

Module ExtractionMap.
Import PyStr Worker.

(** [if sym not in l: l.append(sym)] *)
Definition append_new (l : list str) (sym : str) : list str :=
  if bool_decide (sym ∈ l) then l else l ++ [sym].

(** Step 4 of case 1 of [_process_change], the mapping update after a
    file [target] was created from [source_file]; [created_symbols] are
    the names [collect_definitions] found in the new file, in the order
    the set is iterated, or none when it raised. *)
Definition map_extraction (extraction_map : gmap str extraction) (source_file target : str)
    (created_symbols : list str) : gmap str extraction :=
  let entry := default (Extraction [] []) (extraction_map !! source_file) in
  <[source_file := Extraction (append_new (moved_to entry) target)
                              (foldl append_new (symbols entry) created_symbols)]>
    extraction_map.

(** The symbols mapped for a file. *)
Definition mapped_symbols (extraction_map : gmap str extraction) (file : str) : list str :=
  match extraction_map !! file with
  | Some e => symbols e
  | None => []
  end.

End ExtractionMap.

(** ** [core/worker/utils.py]: the import statement of a moved entity *)

Module ImportFormat.
Import PyStr.

(** [a < b] on strings: by code point, a proper prefix first. *)
Fixpoint str_ltb (a b : str) : bool :=
  match a, b with
  | [], [] => false
  | [], _ :: _ => true
  | _ :: _, [] => false
  | x :: a', y :: b' =>
      if nat_of_ascii x <? nat_of_ascii y then true
      else if nat_of_ascii y <? nat_of_ascii x then false
      else str_ltb a' b'
  end.

(** [sorted(list(set(entities)))]: the distinct entities in increasing
    order, built by insertion. *)
Fixpoint insert_sorted (e : str) (l : list str) : list str :=
  match l with
  | [] => [e]
  | x :: l' =>
      if str_ltb e x then e :: l
      else if str_ltb x e then x :: insert_sorted e l'
      else l
  end.

Definition sorted_set (entities : list str) : list str := foldr insert_sorted [] entities.

(** Increasing, without repeats. *)
Fixpoint increasing (l : list str) : Prop :=
  match l with
  | [] => True
  | a :: l' => Forall (fun b => str_ltb a b = true) l' ∧ increasing l'
  end.

Definition _format_import (module : str) (entities : list str) : str :=
  match entities with
  | [] => []
  | _ =>
      let entities := sorted_set entities in
      let single_line := "from " ++ module ++ " import " ++ join ", " entities in
      if length single_line <=? 80 then single_line
      else
        join [NL] (["from " ++ module ++ " import (" : str]
                   ++ map (fun e => "    " ++ e ++ ",") entities
                   ++ [")" : str])
  end.

(** The [for i in range(min_len)] loop with its [break]: the two lists
    are compared from the front, at most [min_len] times. *)
Fixpoint common_len (src_dir tgt_parts : list str) (min_len : nat) : nat :=
  match min_len, src_dir, tgt_parts with
  | S n, a :: src_dir', b :: tgt_parts' =>
      if bool_decide (a = b) then S (common_len src_dir' tgt_parts' n) else 0
  | _, _, _ => 0
  end.

Definition build_import_statement_code (entities : list str) (source_file target_file : str)
    : str :=
  let src_parts := split_char "/" (replace "\" "/" source_file) in
  let tgt_parts := split_char "/" (replace "\" "/" target_file) in
  let src_dir := removelast src_parts in
  let common_len := common_len src_dir tgt_parts (length src_dir `min` (length tgt_parts - 1)) in
  let up_levels := length src_dir - common_len in
  let down_path_parts := drop common_len (removelast tgt_parts) in
  let target_filename := default [] (last tgt_parts) in
  let target_module_name :=
    if endswith ".py" target_filename
    then take (length target_filename - 3) target_filename
    else target_filename in
  let module_path : str :=
    if up_levels =? 0 then "." else concat (replicate (up_levels + 1) ("." : str)) in
  let module_path :=
    match down_path_parts with
    | [] => module_path
    | _ => module_path ++ join "." down_path_parts ++ "."
    end in
  _format_import (module_path ++ target_module_name) entities.

End ImportFormat.

(** ** [core/patcher.py]: the temporary artifacts of a loop *)

Module Artifacts.
Import PyStr.

(** [f"{loop_count}"]: the decimal digits of the integer, after a minus
    sign when it is negative. *)
Definition decimal (n : Z) : str :=
  list_ascii_of_string (DecimalString.NilEmpty.string_of_int (Z.to_int n)).

(** [s.rsplit(c, 1)] *)
Definition rsplit1 (c : ascii) (s : str) : list str :=
  match rfind [c] s with
  | Some i => [take i s; drop (S i) s]
  | None => [s]
  end.

(** The name under which [save_temp_artifact] and [load_temp_artifact]
    keep [filename] for loop [loop_count]. *)
Definition temp_filename (filename : str) (loop_count : Z) : str :=
  match rsplit1 "." filename with
  | [base_name; ext] => "loop_" ++ decimal loop_count ++ "_" ++ base_name ++ "." ++ ext
  | _ => "loop_" ++ decimal loop_count ++ "_" ++ filename
  end.

(** The directory [.temp_artifacts] on a POSIX file system: the regular
    files it holds, by name, with the texts written in them; it has no
    subdirectory. *)
Abbreviation directory := (gmap str str).

Definition NUL : ascii := "000"%char.
Definition CR : ascii := "013"%char.

(** The length of the UTF-8 encoding of a name: one byte for a code
    point below 128, two for the others below 256. *)
Definition utf8_length (name : str) : nat :=
  foldr (fun c n => (if nat_of_ascii c <? 128 then 1 else 2) + n) 0 name.

(** Whether a file of that name can stand in the directory: the name
    has no null character ([open] raises [ValueError]), no slash (it
    would stand in a subdirectory, and there is none) and at most 255
    bytes ([open] raises [OSError] for a longer one). *)
Definition name_accepted (name : str) : bool :=
  negb (bool_decide (NUL ∈ name)) && negb (bool_decide ("/"%char ∈ name))
  && (utf8_length name <=? 255).

(** What reading in text mode makes of a text: a carriage return, alone
    or followed by a newline, is read as a newline. Writing in text mode
    on POSIX leaves the text as it is. *)
Fixpoint universal_newlines (s : str) : str :=
  match s with
  | [] => []
  | c :: s' =>
      if Ascii.eqb c CR then
        NL :: match s' with
              | d :: s'' => if Ascii.eqb d NL then universal_newlines s''
                            else universal_newlines s'
              | [] => []
              end
      else c :: universal_newlines s'
  end.

(** [save_temp_artifact]: the path returned and the directory after the
    write, or [None] when [open] raises. *)
Definition save_temp_artifact (dir : directory) (content filename : str) (loop_count : Z)
    : option (str * directory) :=
  let name := temp_filename filename loop_count in
  if name_accepted name then Some (".temp_artifacts/" ++ name, <[name := content]> dir)
  else None.

(** [load_temp_artifact]: [os.path.exists] is false for a name that
    cannot stand in the directory. *)
Definition load_temp_artifact (dir : directory) (filename : str) (loop_count : Z)
    : option str :=
  let name := temp_filename filename loop_count in
  if name_accepted name then universal_newlines <$> dir !! name else None.

(** [cleanup_loop_artifacts]: every file of the directory whose name
    starts with the prefix of the loop is removed, each removal
    succeeding. *)
Definition cleanup_loop_artifacts (dir : directory) (loop_count : Z) : directory :=
  filter (fun entry : str * str =>
            startswith ("loop_" ++ decimal loop_count ++ "_") entry.1 = false) dir.

Definition cleanup_previous_loop_artifacts (dir : directory) (current_loop : Z) : directory :=
  if (1 <? current_loop)%Z then cleanup_loop_artifacts dir (current_loop - 1) else dir.

End Artifacts.

(** ** [core/safety.py]: the names of the history files *)

Module Safety.
Import PyStr.

(** [c.isalnum()] on the code points below 256: the letters, the digits
    and the characters with a numeric value. *)
Definition isalnum (c : ascii) : bool :=
  let n := nat_of_ascii c in
  ((48 <=? n) && (n <=? 57)) || ((65 <=? n) && (n <=? 90)) || ((97 <=? n) && (n <=? 122))
  || (n =? 170) || (n =? 178) || (n =? 179) || (n =? 181) || (n =? 185) || (n =? 186)
  || ((188 <=? n) && (n <=? 190))
  || ((192 <=? n) && (n <=? 214)) || ((216 <=? n) && (n <=? 246)) || (248 <=? n).

(** ["".join([c if c.isalnum() else "_" for c in task])[:limit]] *)
Definition safe_task (limit : nat) (task : str) : str :=
  take limit (map (fun c => if isalnum c then c else "_"%char) task).

(** The name [archive_plan] gives the archived plan; [timestamp] is what
    [datetime.now().strftime] returns. *)
Definition archive_name (timestamp task_name : str) : str :=
  let safe_task := safe_task 30 task_name in
  let safe_task : str := match safe_task with [] => "plan" | _ => safe_task end in
  timestamp ++ "_" ++ safe_task ++ ".json".

(** The name [log_operation] writes its log under. *)
Definition log_name (timestamp task : str) : str :=
  timestamp ++ "_" ++ safe_task 50 task ++ ".json".

End Safety.

(** ** [core/ast_patcher.py]: the source of one definition *)

Module AstExtract.
Import PyStr.

(** [s.splitlines(keepends=True)]: [cur] is the current line, reversed. *)
Fixpoint splitlines_keepends_go (cur : str) (s : str) : list str :=
  match s with
  | [] => match cur with [] => [] | _ => [reverse cur] end
  | c :: s' =>
      if is_linebreak c then
        match s' with
        | d :: s'' =>
            if (nat_of_ascii c =? 13) && (nat_of_ascii d =? 10)
            then reverse (d :: c :: cur) :: splitlines_keepends_go [] s''
            else reverse (c :: cur) :: splitlines_keepends_go [] s'
        | [] => [reverse (c :: cur)]
        end
      else splitlines_keepends_go (c :: cur) s'
  end.

Definition splitlines_keepends (s : str) : list str := splitlines_keepends_go [] s.

(** A statement of the module body as [extract_function_source] reads
    it: whether it is a function, async function or class definition, its
    name, the line of its first decorator when it has one, its first and
    its last line. *)
Record statement : Type := Statement {
  is_definition : bool;
  name : str;
  first_decorator_lineno : option positive;
  lineno : positive;
  end_lineno : positive
}.

(** [parse] is [ast.parse] on the source: the statements of the module
    body, or [None] when it raises. The line numbers of a parsed tree are
    set and positive, so the fallback to [ast.get_source_segment] is not
    taken; the first definition of that name in the body is the one
    returned. *)
Definition extract_function_source (parse : str -> option (list statement))
    (source_code func_name : str) : option str :=
  match parse source_code with
  | None => None
  | Some body =>
      match List.find (fun node => is_definition node && bool_decide (name node = func_name))
                      body with
      | None => None
      | Some node =>
          let start_line := Pos.to_nat (default (lineno node) (first_decorator_lineno node)) in
          let end_line := Pos.to_nat (end_lineno node) in
          let lines := splitlines_keepends source_code in
          Some (concat (take (end_line - (start_line - 1)) (drop (start_line - 1) lines)))
      end
  end.

End AstExtract.

(** ** [core/worker/__init__.py]: the drafting pipeline *)

Module Draft.
Import PyStr Worker.

(** A change of the plan as [create_diff_draft] reads it: [file] is
    [change.get("file") or change.get("target_file")], a path;
    [history_action] is [change.get("action", "UNKNOWN")]. *)
Record change : Type := Change {
  file : str;
  history_action : str;
  step : instruction
}.

(** An entry of [task_history]. *)
Record task : Type := Task {
  task_action : str;
  task_file : str;
  task_desc : str
}.

(** An entry of [stats["details"]]: staged, or the exception caught. *)
Inductive status : Type :=
  | Staged
  | Error (e : exn).

Definition is_staged (s : status) : bool :=
  match s with Staged => true | Error _ => false end.

Record stats : Type := Stats {
  total : nat;
  drafted : nat;
  failed : nat;
  details : list (str * status)
}.

(** The state of the loop over the changes. *)
Record draft_state : Type := DraftState {
  working : gmap str str;
  task_history : list task;
  extraction_map : gmap str extraction;
  counts : stats;
  flagged : list str
}.

Section Pipeline.

(** [self._process_change(original, change, task_history, extraction_map)]:
    the text of the target file, or the files of a multi-file result, or
    the exception raised; and the Extraction Map as the call leaves it. *)
Variable process_change :
  str -> change -> list task -> gmap str extraction ->
  result (str + list (str * str)) * gmap str extraction.

(** The files of the stage directory and of the project, by relative
    path. *)
Variable stage disk : gmap str str.

(** Step 1: the base content, from the cache, the stage or the disk;
    a staged version is put in the cache. The files are read without
    error. *)
Definition base_content (working : gmap str str) (target_rel : str) : str * gmap str str :=
  match working !! target_rel with
  | Some original => (original, working)
  | None =>
      match stage !! target_rel with
      | Some original => (original, <[target_rel := original]> working)
      | None => (default [] (disk !! target_rel), working)
      end
  end.

(** The body of the loop over the changes. *)
Definition draft_change (st : draft_state) (c : change) : draft_state :=
  let target_rel := file c in
  let '(original, working) := base_content (working st) target_rel in
  let '(result, extraction_map) :=
    process_change original c (task_history st) (extraction_map st) in
  let s := counts st in
  match result with
  | Ok result =>
      let files_to_update :=
        match result with
        | inl content => [(target_rel, content)]
        | inr files => files
        end in
      let '(working, newly_flagged) := stage_files working files_to_update in
      DraftState working
        (task_history st ++ [Task (history_action c) target_rel (description (step c))])
        extraction_map
        (Stats (total s) (S (drafted s)) (failed s) (details s ++ [(target_rel, Staged)]))
        (flagged st ++ newly_flagged)
  | Raise e =>
      DraftState working (task_history st) extraction_map
        (Stats (total s) (drafted s) (S (failed s)) (details s ++ [(target_rel, Error e)]))
        (flagged st)
  end.

(** [create_diff_draft] once the plan is loaded: the statistics
    returned, the stage directory after the final write, and the paths
    flagged as suspicious. *)
Definition create_diff_draft (changes : list change) : stats * gmap str str * list str :=
  let st :=
    foldl draft_change
          (DraftState ∅ [] ∅ (Stats (length changes) 0 0 []) []) changes in
  (counts st, working st ∪ stage, flagged st).

End Pipeline.

End Draft.

(** * Properties *)

(** ** The patch engine: whole-call failure and partial success *)

Section PatchLoop.
Import PyStr Patcher.

Lemma step_count_mono st blocks :
  applied_count st ≤ applied_count (foldl step st blocks).
Proof.
  revert st. induction blocks as [|b bs IH]; intros st; simpl; [lia|].
  etrans; [|apply IH]. unfold step. destruct (apply_block _ b); simpl; lia.
Qed.

Lemma step_none_applied st blocks :
  applied_count (foldl step st blocks) = applied_count st
  ↔ Forall (λ b, applies (modified_code st) b = false) blocks.
Proof.
  revert st. induction blocks as [|b bs IH]; intros st; simpl.
  - split; [constructor | done].
  - rewrite Forall_cons. unfold applies at 1.
    pose proof (step_count_mono (step st b) bs) as Hmono.
    specialize (IH (step st b)). revert IH Hmono.
    generalize (foldl step (step st b) bs). intros final. unfold step.
    destruct (apply_block (modified_code st) b) eqn:Hb; simpl; intros IH Hmono.
    + split; [lia | intros [? _]; done].
    + rewrite IH. tauto.
    + rewrite IH. tauto.
Qed.

Lemma step_text st blocks :
  modified_code (foldl step st blocks) = foldl after_block (modified_code st) blocks.
Proof.
  revert st. induction blocks as [|b bs IH]; intros st; simpl; [done|].
  rewrite IH. f_equal. unfold step, after_block.
  by destruct (apply_block (modified_code st) b).
Qed.

Lemma step_printed st blocks :
  printed (foldl step st blocks)
  = printed st
    ++ omap (λ cb, message_of cb.1 cb.2) (zip (texts_met (modified_code st) blocks) blocks).
Proof.
  revert st. induction blocks as [|b bs IH]; intros st; simpl.
  - by rewrite app_nil_r.
  - rewrite IH. unfold step, after_block, message_of.
    destruct (apply_block (modified_code st) b); simpl; [done| |done].
    by rewrite <- app_assoc.
Qed.

Lemma malformed_block_skipped code block :
  contains SEPARATOR_LINE block = false ∨ contains END_MARKER block = false →
  apply_block code block = Skipped.
Proof. unfold apply_block. intros [-> | ->]; simpl; [done|]. by rewrite orb_true_r. Qed.

End PatchLoop.

Section PatchCall.
Import PyStr Patcher.

(** C1, as the code has it. A block is what follows a SEARCH marker in
    the patch text (in what stands between its first two code fences when
    it has a fence). The call raises exactly when there is at least one
    block and no block applies to the original text; otherwise it returns
    the text obtained by applying the blocks in order, a block that does
    not apply leaving the text as it is. A message is printed only for a
    block that has its separator and end marker and fails in the tiers; a
    block that lacks one of them is passed over without a message. *)
Theorem apply_patches_robust_outcome (original_code patch_text : str) :
  let blocks := patch_blocks patch_text in
  (is_raise (apply_patches_robust original_code patch_text) = true
   ↔ blocks ≠ [] ∧ Forall (λ b, applies original_code b = false) blocks)
  ∧ (is_raise (apply_patches_robust original_code patch_text) = false →
     apply_patches_robust original_code patch_text
     = Ok (foldl after_block original_code blocks,
           omap (λ cb, message_of cb.1 cb.2) (zip (texts_met original_code blocks) blocks)))
  ∧ (∀ code b, applies code b = false → after_block code b = code)
  ∧ (∀ code b,
       contains SEPARATOR_LINE b = false ∨ contains END_MARKER b = false →
       applies code b = false ∧ message_of code b = None).
Proof.
  intros blocks. unfold apply_patches_robust. fold blocks. unfold run_blocks.
  pose proof (step_none_applied (PatchState original_code 0 []) blocks) as Hnone.
  pose proof (step_text (PatchState original_code 0 []) blocks) as Htext.
  pose proof (step_printed (PatchState original_code 0 []) blocks) as Hlog.
  simpl in Hnone, Htext, Hlog.
  split; [|split; [|split]].
  - destruct (applied_count _ =? 0) eqn:Hc; simpl.
    + apply Nat.eqb_eq in Hc. destruct blocks as [|b bs]; simpl.
      * split; [done | intros [? _]; done].
      * split; [intros _ | done]. split; [done | by apply Hnone].
    + apply Nat.eqb_neq in Hc. split; [done | intros [_ Hall]].
      by apply Hnone in Hall.
  - destruct (_ && _); simpl; [done | intros _].
    by rewrite Htext, Hlog.
  - intros code b. unfold applies, after_block. by destruct (apply_block code b).
  - intros code b Hb. unfold applies, message_of.
    by rewrite (malformed_block_skipped code b Hb).
Qed.

(** C1, witness: a patch of two well-formed blocks, the first matching
    nothing and the second applying. *)
Lemma apply_patches_robust_outcome_witness :
  apply_patches_robust (text ["x = 1"; "y = 2"])
    (text ["<<<<<<< SEARCH"; "z = 0"; "======="; "z = 1"; ">>>>>>> REPLACE";
           "<<<<<<< SEARCH"; "y = 2"; "======="; "y = 3"; ">>>>>>> REPLACE"])
  = Ok (text ["x = 1"; "y = 3"], [PatchFailed "z = 0"]).
Proof.
  pose proof (apply_patches_robust_outcome (text ["x = 1"; "y = 2"])
    (text ["<<<<<<< SEARCH"; "z = 0"; "======="; "z = 1"; ">>>>>>> REPLACE";
           "<<<<<<< SEARCH"; "y = 2"; "======="; "y = 3"; ">>>>>>> REPLACE"])) as H.
  cbv zeta in H. destruct H as (_ & H & _).
  rewrite H; [vm_compute; reflexivity | vm_compute; reflexivity].
Defined.

(** C1, counterexample. The second block has no separator: it fails,
    the call returns the text patched by the first block, and nothing is
    logged for it. A patch text whose only block is of that kind makes
    the call raise although it holds no search/replace block. *)
Lemma apply_patches_robust_silent_skip :
  let original := text ["x = 1"] in
  let patch := text ["<<<<<<< SEARCH"; "x = 1"; "======="; "x = 2"; ">>>>>>> REPLACE";
                     "<<<<<<< SEARCH"; "y = 1"] in
  apply_patches_robust original patch = Ok (text ["x = 2"], [])
  ∧ patch_blocks patch !! 1 = Some (text ["y = 1"])
  ∧ applies (text ["x = 2"]) (text ["y = 1"]) = false
  ∧ is_raise (apply_patches_robust original (text ["<<<<<<< SEARCH"; "y = 1"])) = true
  ∧ contains "=======" (text ["<<<<<<< SEARCH"; "y = 1"]) = false.
Proof. vm_compute. repeat split; reflexivity. Qed.

End PatchCall.

(** ** The dependency graph: peel-back resolution and self-loops *)

Section GraphProperties.
Import PyStr Graph.

Lemma split_char_nonempty c s : split_char c s ≠ [].
Proof.
  destruct s as [|a s]; simpl; [done|].
  destruct (Ascii.eqb a c); [done|]. by destruct (split_char c s).
Qed.

(** Joining the parts of a split gives the text back. *)
Lemma join_split_char c s : join [c] (split_char c s) = s.
Proof.
  induction s as [|a s IH]; simpl; [done|].
  destruct (Ascii.eqb a c) eqn:Hac.
  - apply Ascii.eqb_eq in Hac as ->.
    pose proof (split_char_nonempty c s) as Hne.
    destruct (split_char c s) as [|w ws] eqn:Hs; [done|].
    simpl in *. by rewrite IH.
  - pose proof (split_char_nonempty c s) as Hne.
    destruct (split_char c s) as [|w ws] eqn:Hs; [done|].
    destruct ws; simpl in *; by rewrite <- IH.
Qed.

Lemma peel_back_S m parts i :
  peel_back m parts (S i)
  = match m !! join "." (take (S i) parts) with
    | Some path => Some path
    | None => peel_back m parts i
    end.
Proof. reflexivity. Qed.

(** The loop returns the file of the first candidate found, counting
    down from [i]. *)
Lemma peel_back_some m parts i f :
  peel_back m parts i = Some f
  ↔ ∃ k, 1 ≤ k ≤ i ∧ m !! join "." (take k parts) = Some f
         ∧ ∀ j, k < j ≤ i → m !! join "." (take j parts) = None.
Proof.
  induction i as [|i IH].
  - simpl. split; [done | intros (k & ? & _); lia].
  - rewrite peel_back_S.
    destruct (m !! join "." (take (S i) parts)) as [p|] eqn:Hm.
    + split.
      * intros [= ->]. exists (S i). split; [lia|]. split; [done | intros; lia].
      * intros (k & Hk & Hf & Hnone).
        destruct (decide (k = S i)) as [-> | Hne]; [congruence|].
        rewrite Hnone in Hm; [done | lia].
    + rewrite IH. split.
      * intros (k & Hk & Hf & Hnone). exists k. split; [lia|]. split; [done|].
        intros j Hj. destruct (decide (j = S i)) as [-> | Hne]; [done|].
        apply Hnone. lia.
      * intros (k & Hk & Hf & Hnone).
        destruct (decide (k = S i)) as [-> | Hne]; [congruence|].
        exists k. split; [lia|]. split; [done|]. intros j Hj. apply Hnone. lia.
Qed.

Lemma peel_back_none m parts i :
  peel_back m parts i = None ↔ ∀ k, 1 ≤ k ≤ i → m !! join "." (take k parts) = None.
Proof.
  induction i as [|i IH].
  - simpl. split; [intros; lia | done].
  - rewrite peel_back_S.
    destruct (m !! join "." (take (S i) parts)) as [p|] eqn:Hm.
    + split; [done | intros H; rewrite H in Hm; [done | lia]].
    + rewrite IH. split.
      * intros H k Hk. destruct (decide (k = S i)) as [-> | Hne]; [done|]. apply H. lia.
      * intros H k Hk. apply H. lia.
Qed.

(** C3. The candidates of an import string are the texts made of its
    first [k] dot-separated segments, the longest being the string
    itself. Resolution returns the file of the longest candidate that is
    a key of the module index, and no file exactly when no candidate is a
    key. So ["pkg.mod.Class"] resolves to the file of [pkg.mod] whenever
    that module is indexed and the full string is not, whatever [pkg]
    maps to. *)
Theorem resolve_import_longest_prefix (module_to_path : gmap str str) (import_str : str) :
  let parts := split_char "." import_str in
  let candidate k := join "." (take k parts) in
  candidate (length parts) = import_str
  ∧ (∀ f, _resolve_import module_to_path import_str = Some f
          ↔ ∃ k, 1 ≤ k ≤ length parts ∧ module_to_path !! candidate k = Some f
                 ∧ ∀ j, k < j ≤ length parts → module_to_path !! candidate j = None)
  ∧ (_resolve_import module_to_path import_str = None
     ↔ ∀ k, 1 ≤ k ≤ length parts → module_to_path !! candidate k = None)
  ∧ (∀ (m : gmap str str) (mod_file : str),
       m !! ("pkg.mod" : str) = Some mod_file →
       m !! ("pkg.mod.Class" : str) = None →
       _resolve_import m "pkg.mod.Class" = Some mod_file).
Proof.
  intros parts candidate. split; [|split; [|split]].
  - unfold candidate. rewrite firstn_all. apply (join_split_char "."%char).
  - intros f. apply peel_back_some.
  - apply peel_back_none.
  - intros m mod_file Hmod Hfull. apply peel_back_some.
    exists 2. split; [vm_compute; lia|]. split; [exact Hmod|].
    intros j Hj. assert (j = 3) as -> by (vm_compute in Hj; lia). exact Hfull.
Qed.

(** C3, witness: an index holding both [pkg.mod] and [pkg]. *)
Lemma resolve_import_longest_prefix_witness :
  _resolve_import
    (<[("pkg.mod" : str) := ("pkg/mod.py" : str)]>
       (<[("pkg" : str) := ("pkg/__init__.py" : str)]> ∅))
    "pkg.mod.Class"
  = Some ("pkg/mod.py" : str).
Proof.
  apply (resolve_import_longest_prefix ∅ []); vm_compute; reflexivity.
Defined.

End GraphProperties.

Section GraphInvariant.
Import PyStr Graph.

Lemma no_self_loops_empty : no_self_loops empty_graph.
Proof. intros u v Huv. simpl in Huv. set_solver. Qed.

Lemma no_self_loops_add_node g n : no_self_loops g → no_self_loops (add_node g n).
Proof. intros Hg u v Huv. by apply Hg. Qed.

Lemma no_self_loops_add_edge g u v : u ≠ v → no_self_loops g → no_self_loops (add_edge g u v).
Proof.
  intros Huv Hg a b Hab. simpl in Hab.
  apply elem_of_union in Hab as [Hab | Hab]; [|by apply Hg].
  apply elem_of_singleton in Hab. by simplify_eq.
Qed.

Lemma no_self_loops_add_import m importer st import_str :
  no_self_loops (bs_graph st) → no_self_loops (bs_graph (add_import m importer st import_str)).
Proof.
  intros Hg. unfold add_import.
  destruct (_resolve_import m import_str) as [target|]; [|done].
  repeat case_bool_decide; simpl; try done.
  by apply no_self_loops_add_edge.
Qed.

Lemma no_self_loops_foldl {A : Type} (f : digraph → A → digraph) (l : list A) g :
  (∀ g x, no_self_loops g → no_self_loops (f g x)) →
  no_self_loops g → no_self_loops (foldl f g l).
Proof. intros Hf. revert g. induction l as [|x l IH]; simpl; auto. Qed.

Lemma no_self_loops_foldl_state {A : Type} (f : build_state → A → build_state) (l : list A) st :
  (∀ st x, no_self_loops (bs_graph st) → no_self_loops (bs_graph (f st x))) →
  no_self_loops (bs_graph st) → no_self_loops (bs_graph (foldl f st l)).
Proof. intros Hf. revert st. induction l as [|x l IH]; simpl; auto. Qed.

Lemma build_from_database_no_self_loops self db :
  no_self_loops (graph self) → no_self_loops (graph (_build_from_database self db).1).
Proof.
  intros Hg. unfold _build_from_database.
  assert (Hnodes : no_self_loops
            (foldl (λ (g : digraph) (row : Z * str), add_node g row.2) (graph self) (files db))).
  { apply no_self_loops_foldl; [|done]. intros. by apply no_self_loops_add_node. }
  destruct (imports db) as [rows|]; simpl; [|done].
  apply no_self_loops_foldl_state; [|done].
  intros st row Hst. destruct (_ !! row.1); [|done].
  by apply no_self_loops_add_import.
Qed.

Lemma build_from_artifacts_no_self_loops self artifacts :
  no_self_loops (graph self) → no_self_loops (graph (_build_from_artifacts self artifacts)).
Proof.
  intros Hg. unfold _build_from_artifacts. simpl.
  apply no_self_loops_foldl_state.
  - intros st item Hst. case_bool_decide; [|done].
    apply no_self_loops_foldl_state; [|done].
    intros. by apply no_self_loops_add_import.
  - simpl. apply no_self_loops_foldl; [|done]. intros. by apply no_self_loops_add_node.
Qed.

(** C4. Whatever the state before, the index read (or the failure to
    read it) and the artifact map, the graph a build leaves has no
    self-loop; and an import that resolves to its own importer leaves the
    graph as it was. *)
Theorem build_no_self_loops :
  (∀ self db from_artifacts, no_self_loops (graph (build self db from_artifacts)))
  ∧ (∀ self db from_artifacts, ¬ has_self_loop (graph (build self db from_artifacts)))
  ∧ (∀ module_to_path importer_path st import_str,
       _resolve_import module_to_path import_str = Some importer_path →
       bs_graph (add_import module_to_path importer_path st import_str) = bs_graph st).
Proof.
  assert (H : ∀ self db from_artifacts, no_self_loops (graph (build self db from_artifacts))).
  { intros self db from_artifacts. unfold build.
    destruct from_artifacts as [artifacts|].
    - exact (build_from_artifacts_no_self_loops
               (DependencyGraph empty_graph (is_built self) ∅) artifacts no_self_loops_empty).
    - destruct db as [d|]; [|apply no_self_loops_empty].
      pose proof (build_from_database_no_self_loops
                    (DependencyGraph empty_graph (is_built self) ∅) d no_self_loops_empty) as Hd.
      by destruct (_build_from_database _ d). }
  split; [exact H|]. split.
  - intros self db from_artifacts [n Hn]. by apply (H self db from_artifacts n n).
  - intros m importer st import_str Hres. unfold add_import. rewrite Hres.
    repeat case_bool_decide; simpl; done.
Qed.

(** C4, witness: a package whose [__init__] imports the package itself
    and one of its modules; only the second import becomes an edge. *)
Lemma build_no_self_loops_witness :
  let artifacts : list (str * list str) :=
    [("pkg/__init__.py" : str, ["pkg" : str; "pkg.mod" : str]); ("pkg/mod.py" : str, [])] in
  let built := build (DependencyGraph empty_graph false ∅) None (Some artifacts) in
  edges (graph built) = {[("pkg/__init__.py" : str, "pkg/mod.py" : str)]}
  ∧ no_self_loops (graph built).
Proof.
  intros artifacts built. split.
  - vm_compute. reflexivity.
  - apply (proj1 build_no_self_loops).
Defined.

End GraphInvariant.

(** ** The fuzzy file resolver: the confidence gate and ties *)

Section ResolverProperties.
Import PyStr Resolver.
#[local] Open Scope float_scope.

(** C7. A best candidate whose score is below 0.3 makes [resolve] return
    no match, and a match that [resolve] returns is the best candidate
    and its score is not below 0.3. *)
Theorem resolve_confidence_gate (table : list row) (path_fragment : str) :
  (∀ b, best_candidate table path_fragment = Some b →
        (score b <? 0.3) = true → resolve table path_fragment = None)
  ∧ (∀ m, resolve table path_fragment = Some m →
          (score m <? 0.3) = false ∧ best_candidate table path_fragment = Some m)
  ∧ (best_candidate table path_fragment = None → resolve table path_fragment = None).
Proof.
  unfold resolve. split; [|split].
  - intros b -> Hlow. by rewrite Hlow.
  - intros m. destruct (best_candidate table path_fragment) as [b|]; [|done].
    destruct (score b <? 0.3) eqn:Hlow; [done|]. by intros [= ->].
  - by intros ->.
Qed.

(** C7, witness: the file name matches, one path segment of two is
    shared, and the best score is 0.2. *)
Lemma resolve_confidence_gate_witness :
  resolve [(2%Z, "c/x.py" : str)] "qwertyuiop/x.py" = None.
Proof.
  eapply (proj1 (resolve_confidence_gate [(2%Z, "c/x.py" : str)] "qwertyuiop/x.py")).
  - vm_compute. reflexivity.
  - vm_compute. reflexivity.
Defined.

Lemma max_from_app {A K : Type} (gt : K → K → bool) (key : A → K) best l1 l2 :
  max_from gt key best (l1 ++ l2) = max_from gt key (max_from gt key best l1) l2.
Proof.
  revert best. induction l1 as [|x l1 IH]; intros best; simpl; [done|].
  destruct (gt (key x) (key best)); apply IH.
Qed.

(** A maximum so far that no later item strictly beats is the result. *)
Lemma max_from_keeps {A K : Type} (gt : K → K → bool) (key : A → K) best l :
  Forall (λ y, gt (key y) (key best) = false) l → max_from gt key best l = best.
Proof.
  induction 1 as [|y l Hy _ IH]; simpl; [done|]. by rewrite Hy.
Qed.

(** C8, as the code has it. [max] keeps the first of the items whose
    key is greatest: an item is the result when it strictly beats the
    maximum of the items before it and no later item strictly beats it.
    So each strategy returns the first row, in the order of the table,
    among the rows that score best under it, whatever the length of the
    paths; and ["scanner.py"] resolves to [core/scanner.py] against an
    index holding [core/scanner.py] and [core/scanner_old.py]. *)
Theorem ties_keep_first_row :
  (∀ (A K : Type) (gt : K → K → bool) (key : A → K) (first : A) (before after : list A) (x : A),
     gt (key x) (key (max_from gt key first before)) = true →
     Forall (λ y, gt (key y) (key x) = false) after →
     py_max gt key (first :: before ++ x :: after) = Some x)
  ∧ (∀ (A K : Type) (gt : K → K → bool) (key : A → K) (first : A) (after : list A),
       Forall (λ y, gt (key y) (key first) = false) after →
       py_max gt key (first :: after) = Some first)
  ∧ (∀ table path_fragment r rest,
       filter (λ r : row, sql_like ("%" ++ path_fragment) r.2 = true) table = r :: rest →
       Forall (λ y : row, float_gt (_path_similarity path_fragment y.2)
                                   (_path_similarity path_fragment r.2) = false) rest →
       path <$> _suffix_match table path_fragment = Some r.2)
  ∧ (∀ table path_fragment r rest,
       filter (λ r : row, sql_like ("%" ++ default [] (last (split_char "/" path_fragment))) r.2
                          = true) table = r :: rest →
       Forall (λ y : row,
                 nat_gt (common_count (split_char "/" y.2) (split_char "/" path_fragment))
                        (common_count (split_char "/" r.2) (split_char "/" path_fragment))
                 = false) rest →
       path <$> _filename_match table path_fragment = Some r.2)
  ∧ (∀ path_fragment r rest,
       Forall (λ y : row, float_gt (_levenshtein_ratio path_fragment y.2)
                                   (_levenshtein_ratio path_fragment r.2) = false) rest →
       (0.5 <=? _levenshtein_ratio path_fragment r.2) = true →
       path <$> _fuzzy_match (r :: rest) path_fragment = Some r.2)
  ∧ path <$> resolve [(1%Z, "core/scanner.py" : str); (2%Z, "core/scanner_old.py" : str)]
                     "scanner.py"
    = Some ("core/scanner.py" : str).
Proof.
  split; [|split; [|split; [|split; [|split]]]].
  - intros A K gt key first before x after Hx Hafter. simpl.
    rewrite max_from_app. simpl. rewrite Hx. f_equal. by apply max_from_keeps.
  - intros A K gt key first after Hafter. simpl. f_equal. by apply max_from_keeps.
  - intros table path_fragment r rest Hrows Hrest. unfold _suffix_match.
    rewrite Hrows. simpl. by rewrite max_from_keeps.
  - intros table path_fragment r rest Hrows Hrest. unfold _filename_match.
    rewrite Hrows. simpl. by rewrite max_from_keeps.
  - intros path_fragment r rest Hrest Hscore. unfold _fuzzy_match. simpl.
    rewrite max_from_keeps.
    + by rewrite Hscore.
    + apply Forall_fmap. eapply Forall_impl; [exact Hrest|]. by intros y Hy.
  - vm_compute. reflexivity.
Qed.

(** C8, witness: two rows that tie under the file-name strategy. *)
Lemma ties_keep_first_row_witness :
  path <$> _filename_match [(1%Z, "a/b/x.py" : str); (2%Z, "c/x.py" : str)] "x.py"
  = Some ("a/b/x.py" : str).
Proof.
  apply (proj1 (proj2 (proj2 (proj2 ties_keep_first_row)))
           [(1%Z, "a/b/x.py" : str); (2%Z, "c/x.py" : str)] "x.py"
           (1%Z, "a/b/x.py" : str) [(2%Z, "c/x.py" : str)]).
  - vm_compute. reflexivity.
  - repeat constructor.
Defined.

(** C8, counterexample. Both paths end with the fragment and contain
    it, so they tie under the file-name strategy (one shared segment
    each) and under the character strategy (ratio 1 each); each strategy,
    and [resolve], returns the first row, which is the longer path. *)
Lemma resolve_tie_returns_longer_path :
  let table : list row := [(1%Z, "a/b/x.py" : str); (2%Z, "c/x.py" : str)] in
  path <$> resolve table "x.py" = Some ("a/b/x.py" : str)
  ∧ path <$> _fuzzy_match table "x.py" = Some ("a/b/x.py" : str)
  ∧ _levenshtein_ratio "x.py" "a/b/x.py" = _levenshtein_ratio "x.py" "c/x.py"
  ∧ path <$> _filename_match table "x.py" = Some ("a/b/x.py" : str)
  ∧ common_count (split_char "/" "a/b/x.py") (split_char "/" "x.py")
    = common_count (split_char "/" "c/x.py") (split_char "/" "x.py")
  ∧ (length ("c/x.py" : str) < length ("a/b/x.py" : str))%nat.
Proof. vm_compute. repeat split; try reflexivity. lia. Qed.

End ResolverProperties.

(** ** The dispatcher and its helpers *)

Section WorkerProperties.
Import PyStr Worker.

Lemma is_suspicious_empty_original proposed : _is_suspicious [] proposed = false.
Proof. unfold _is_suspicious. by case_bool_decide. Qed.

Lemma stage_files_flags (working : gmap str str) (flagged : list str) (files : list (str * str)) :
  (foldl (λ '(working, flagged) '(path, content),
            let flagged := if _is_suspicious [] content then flagged ++ [path] else flagged in
            (<[path := content]> working, flagged))
         (working, flagged) files).2 = flagged.
Proof.
  revert working flagged. induction files as [|[path content] files IH]; intros; [done|].
  cbn [foldl]. rewrite is_suspicious_empty_original. apply IH.
Qed.

(** C10. With an empty original the predicate is false for every
    proposed text, refusal phrasing included; the drafting pipeline calls
    it with an empty original for every file it stages, so it flags none
    of them. With a non-empty original the same phrasing is flagged. *)
Theorem empty_original_never_suspicious :
  (∀ proposed, _is_suspicious [] proposed = false)
  ∧ (∀ working files_to_update, (stage_files working files_to_update).2 = [])
  ∧ _is_suspicious [] "As an AI, I cannot help with that." = false
  ∧ _is_suspicious "x = 1" "As an AI, I cannot help with that." = true.
Proof.
  split; [exact is_suspicious_empty_original|]. split.
  - intros working files. apply stage_files_flags.
  - split; vm_compute; reflexivity.
Qed.

(** C6, as the code has it. A step goes to the format-preserving
    removal exactly when its action is MODIFY, its description contains
    "remove", "delete" or "cleanup" in any letter case, and the deletion
    set is not empty; the description need not mention a function, class
    or method. The deletion set is the declared entities, or the symbols
    the Extraction Map records for the target when none are declared. *)
Theorem dispatch_cst_removal (project : str → option entry) (original : str)
    (ins : instruction) (extraction_map : gmap str extraction) :
  (∀ entities,
     _process_change project original ins extraction_map = CstRemoval entities
     ↔ upper (action ins) = "MODIFY" ∧ is_delete (description ins) = true
       ∧ deletion_entities ins extraction_map = entities ∧ entities ≠ [])
  ∧ (detected_entities ins ≠ [] →
     deletion_entities ins extraction_map = detected_entities ins)
  ∧ (∀ e, detected_entities ins = [] → extraction_map !! target_file ins = Some e →
          deletion_entities ins extraction_map = symbols e)
  ∧ (detected_entities ins = [] → extraction_map !! target_file ins = None →
     deletion_entities ins extraction_map = []).
Proof.
  split; [|split; [|split]].
  - intros entities. unfold _process_change, surgical_create_from, extract_and_modify_from.
    set (c := bool_decide (upper (action ins) = "CREATE")).
    set (m := bool_decide (upper (action ins) = "MODIFY")).
    set (x := bool_decide (upper (action ins) = "EXTRACT_AND_MODIFY")).
    set (e := bool_decide (deletion_entities ins extraction_map = [])).
    assert (Hm : upper (action ins) = "MODIFY" ↔ m = true)
      by (symmetry; apply bool_decide_eq_true).
    assert (He : deletion_entities ins extraction_map = [] ↔ e = true)
      by (symmetry; apply bool_decide_eq_true).
    assert (Hmc : m = true → c = false).
    { intros H%bool_decide_eq_true. apply bool_decide_eq_false. rewrite H.
      vm_compute. discriminate. }
    assert (Hmx : m = true → x = false).
    { intros H%bool_decide_eq_true. apply bool_decide_eq_false. rewrite H.
      vm_compute. discriminate. }
    rewrite Hm. clearbody c m x e.
    destruct m; [rewrite (Hmc eq_refl), (Hmx eq_refl) | ]; simpl.
    + destruct (is_delete (description ins)), e; simpl;
        repeat case_match; naive_solver.
    + destruct c; simpl; repeat case_match; naive_solver.
  - intros Hne. unfold deletion_entities.
    by rewrite (bool_decide_eq_false_2 _ Hne).
  - intros e Hnone He. unfold deletion_entities. rewrite He, Hnone. simpl.
    by case_bool_decide.
  - intros Hnone He. unfold deletion_entities. by rewrite He, Hnone.
Qed.

(** C6, witness: no entity is declared and the Extraction Map records
    two symbols for the target. *)
Lemma dispatch_cst_removal_witness :
  deletion_entities
    (Instruction "MODIFY" "core/big.py" None "Delete the moved helpers" [])
    {[("core/big.py" : str) := Extraction ["core/small.py" : str] ["helper" : str; "Tool" : str]]}
  = ["helper" : str; "Tool" : str].
Proof.
  apply (proj1 (proj2 (proj2 (dispatch_cst_removal (single_file "core/big.py" []) []
           (Instruction "MODIFY" "core/big.py" None "Delete the moved helpers" [])
           {[("core/big.py" : str) :=
               Extraction ["core/small.py" : str] ["helper" : str; "Tool" : str]]})))
         (Extraction ["core/small.py" : str] ["helper" : str; "Tool" : str])).
  - reflexivity.
  - vm_compute. reflexivity.
Defined.

(** C6, counterexample. The description has a removal word and none of
    "function", "class", "method"; the step declares an entity and is
    routed to the format-preserving removal of that entity. *)
Lemma dispatch_removal_without_entity_word :
  let ins := Instruction "MODIFY" "app.py" None "Remove unused import os" ["helper" : str] in
  _process_change (single_file "app.py" (text ["import os"; "def helper():"; "    pass"]))
    (text ["import os"; "def helper():"; "    pass"]) ins ∅ = CstRemoval ["helper" : str]
  ∧ contains "function" (lower (description ins)) = false
  ∧ contains "class" (lower (description ins)) = false
  ∧ contains "method" (lower (description ins)) = false.
Proof. vm_compute. repeat split; reflexivity. Qed.

(** C9, the failing input. The response has the three markers in order
    and no end marker, and its source section opens with a code fence:
    the clean-up of the section raises [AttributeError], so the call
    raises where the truncated response should have been split. *)
Theorem parse_extract_and_modify_fenced_raises (ast_parse : str → parse_outcome)
    (source_is_py : bool) :
  _extract_and_modify ast_parse source_is_py
    (text ["<<<<<<< TARGET_CONTENT"; "x = 1"; "======="; "<<<<<<< SOURCE_CONTENT";
           "```python"; "y = 2"])
  = Raise (AttributeError "'list' object has no attribute 'startswith'").
Proof. vm_compute. reflexivity. Qed.

(** A truncated response whose sections do not open with a code fence
    is split in two, the rest of the text being the source section, and
    the truncation warning is given, unless the parser raises something
    other than [SyntaxError] on the source section. *)
Lemma parse_extract_and_modify_truncated (ast_parse : str → parse_outcome) (source_is_py : bool)
    (raw_response : str) (t_start t_end s_start : nat) :
  find TARGET_MARKER raw_response = Some t_start →
  find MID_MARKER raw_response = Some t_end →
  find_from SOURCE_MARKER raw_response t_end = Some s_start →
  find_from END_MARKER raw_response s_start = None →
  let target := strip (slice raw_response (t_start + length TARGET_MARKER) t_end) in
  let source := strip (drop (s_start + length SOURCE_MARKER) raw_response) in
  startswith "```" (strip target) = false →
  startswith "```" (strip source) = false →
  (∀ e, ast_parse (strip (strip source)) ≠ RaisedOther e) →
  ∃ more,
    _extract_and_modify ast_parse source_is_py raw_response
    = Ok (Extracted (strip (strip target)) (strip (strip source)) (TruncatedOutput :: more)).
Proof.
  intros Ht Hm Hs He target source Htf Hsf Hother. unfold _extract_and_modify.
  rewrite Ht, Hm, Hs, He. fold target. fold source.
  unfold _clean_llm_code. rewrite Htf, Hsf.
  destruct source_is_py; [|by eexists].
  destruct (ast_parse (strip (strip source))) as [| |e] eqn:Hp; [by eexists..|].
  by destruct (Hother e).
Qed.

Lemma parse_extract_and_modify_truncated_witness :
  ∃ more,
    _extract_and_modify (λ _, Parsed) true
      (text ["<<<<<<< TARGET_CONTENT"; "x = 1"; "======="; "<<<<<<< SOURCE_CONTENT"; "y = 2"])
    = Ok (Extracted "x = 1" "y = 2" (TruncatedOutput :: more)).
Proof.
  apply (parse_extract_and_modify_truncated (λ _, Parsed) true
           (text ["<<<<<<< TARGET_CONTENT"; "x = 1"; "======="; "<<<<<<< SOURCE_CONTENT"; "y = 2"])
           0 29 37); try (vm_compute; reflexivity).
  intros e. discriminate.
Defined.

End WorkerProperties.

(** ** The removal engines: what is removed and what is kept *)

Lemma elem_of_concat {A : Type} (x : A) (ls : list (list A)) :
  x ∈ concat ls ↔ ∃ l, x ∈ l ∧ l ∈ ls.
Proof.
  induction ls as [|l ls IH]; simpl.
  - split; [intros H; by apply elem_of_nil in H | intros (l & _ & H); by apply elem_of_nil in H].
  - rewrite elem_of_app, IH. split.
    + intros [H | (l' & H & Hl')]; [exists l; split; [done | left] | exists l'; split; [done | by right]].
    + intros (l' & H & Hl'). apply elem_of_cons in Hl' as [-> | Hl']; [by left | right; eauto].
Qed.

Section AstRemoval.
Import AstPatcher.

Lemma ast_node_ind (P : node → Prop) :
  (∀ name detail body, Forall P body → P (FunctionDef name detail body)) →
  (∀ name detail body, Forall P body → P (AsyncFunctionDef name detail body)) →
  (∀ name detail body, Forall P body → P (ClassDef name detail body)) →
  (∀ detail body, Forall P body → P (Stmt detail body)) →
  ∀ n, P n.
Proof.
  intros Hf Ha Hc Hs. fix IH 1. intros [name d body | name d body | name d body | d body].
  - apply Hf. induction body as [|x xs IHxs]; constructor; [apply IH | apply IHxs].
  - apply Ha. induction body as [|x xs IHxs]; constructor; [apply IH | apply IHxs].
  - apply Hc. induction body as [|x xs IHxs]; constructor; [apply IH | apply IHxs].
  - apply Hs. induction body as [|x xs IHxs]; constructor; [apply IH | apply IHxs].
Qed.

Lemma ast_omap_id (names : list str) (l : list node) :
  Forall (λ n, visit names n = Some n) l → omap (visit names) l = l.
Proof. induction 1 as [|n l Hn _ IH]; csimpl; [done|]. by rewrite Hn, IH. Qed.

(** A tree none of whose definitions is named in the set is kept as it
    is. *)
Lemma ast_visit_absent (names : list str) (n : node) :
  (∀ x, x ∈ defined_names n → x ∉ names) → visit names n = Some n.
Proof.
  induction n as [name d body IH | name d body IH | name d body IH | d body IH]
    using ast_node_ind; intros Habs; simpl in *.
  1-3: rewrite bool_decide_eq_false_2 by (apply Habs; left).
  all: do 2 f_equal; apply ast_omap_id.
  all: rewrite Forall_forall in IH |- *; intros n Hn; apply IH; [done|].
  all: intros x Hx; apply Habs; try right.
  all: apply elem_of_concat; exists (defined_names n); split; [done|].
  all: by apply list_elem_of_fmap_2.
Qed.

(** No definition of the tree left is named in the set. *)
Lemma ast_visit_removes (names : list str) (n n' : node) :
  visit names n = Some n' → ∀ x, x ∈ defined_names n' → x ∉ names.
Proof.
  revert n'.
  induction n as [name d body IH | name d body IH | name d body IH | d body IH]
    using ast_node_ind; intros n' Hv x Hx; simpl in Hv.
  1-3: case_bool_decide as Hname; [done|].
  all: injection Hv as <-; simpl in Hx.
  1-3: apply elem_of_cons in Hx as [-> | Hx]; [done|].
  all: apply elem_of_concat in Hx as (ns & Hx & Hns).
  all: apply list_elem_of_fmap in Hns as (m' & -> & Hm').
  all: apply list_elem_of_omap in Hm' as (m & Hm & Hvm).
  all: rewrite Forall_forall in IH; by apply (IH m Hm m' Hvm x).
Qed.

End AstRemoval.

Section CstRemoval.
Import CstPatcher.

Lemma cst_node_ind (P : node → Prop) :
  (∀ name children, Forall P children → P (FunctionDef name children)) →
  (∀ name children, Forall P children → P (ClassDef name children)) →
  (∀ children, Forall P children → P (Other children)) →
  (∀ text, P (Token text)) →
  ∀ n, P n.
Proof.
  intros Hf Hc Ho Ht. fix IH 1. intros [name ch | name ch | ch | t].
  - apply Hf. induction ch as [|x xs IHxs]; constructor; [apply IH | apply IHxs].
  - apply Hc. induction ch as [|x xs IHxs]; constructor; [apply IH | apply IHxs].
  - apply Ho. induction ch as [|x xs IHxs]; constructor; [apply IH | apply IHxs].
  - apply Ht.
Qed.

Lemma cst_omap_id (names : list str) (l : list node) :
  Forall (λ n, visit names n = Some n) l → omap (visit names) l = l.
Proof. induction 1 as [|n l Hn _ IH]; csimpl; [done|]. by rewrite Hn, IH. Qed.

Lemma cst_visit_absent (names : list str) (n : node) :
  (∀ x, x ∈ defined_names n → x ∉ names) → visit names n = Some n.
Proof.
  induction n as [name ch IH | name ch IH | ch IH | t] using cst_node_ind;
    intros Habs; simpl in *; [| | |done].
  1-2: rewrite bool_decide_eq_false_2 by (apply Habs; left).
  all: do 2 f_equal; apply cst_omap_id.
  all: rewrite Forall_forall in IH |- *; intros n Hn; apply IH; [done|].
  all: intros x Hx; apply Habs; try right.
  all: apply elem_of_concat; exists (defined_names n); split; [done|].
  all: by apply list_elem_of_fmap_2.
Qed.

Lemma cst_visit_removes (names : list str) (n n' : node) :
  visit names n = Some n' → ∀ x, x ∈ defined_names n' → x ∉ names.
Proof.
  revert n'.
  induction n as [name ch IH | name ch IH | ch IH | t] using cst_node_ind;
    intros n' Hv x Hx; simpl in Hv.
  1-2: case_bool_decide as Hname; [done|].
  all: injection Hv as <-; simpl in Hx.
  4: by apply elem_of_nil in Hx.
  1-2: apply elem_of_cons in Hx as [-> | Hx]; [done|].
  all: apply elem_of_concat in Hx as (ns & Hx & Hns).
  all: apply list_elem_of_fmap in Hns as (m' & -> & Hm').
  all: apply list_elem_of_omap in Hm' as (m & Hm & Hvm).
  all: rewrite Forall_forall in IH; by apply (IH m Hm m' Hvm x).
Qed.

Lemma cst_visit_module_absent (names : list str) (tree : list node) :
  (∀ x, x ∈ concat (map defined_names tree) → x ∉ names) → visit_module names tree = tree.
Proof.
  intros Habs. apply cst_omap_id, Forall_forall. intros n Hn.
  apply cst_visit_absent. intros x Hx. apply Habs.
  apply elem_of_concat. exists (defined_names n). split; [done|].
  by apply list_elem_of_fmap_2.
Qed.

End CstRemoval.

Section RemovalEngines.
Import PyStr.
Import CstPatcher (reference_cst, nested_source, nested_tree, plain_source, plain_tree).
Import AstPatcher (reference_ast, commented_source, commented_tree).

Lemma reference_cst_lossless source tree :
  concat (map CstPatcher.tokens tree) = source → source ≠ [] →
  CstPatcher.lossless (reference_cst source tree).
Proof.
  intros Htree Hne. split; simpl.
  - intros s t. case_decide as Hs; [|done]. intros [= <-]. rewrite Htree, Hs.
    by destruct source.
  - intros t. unfold CstPatcher.closes.
    destruct (concat (map CstPatcher.tokens t)) as [|c x] eqn:Hx; [by left|].
    right. exists []. split; [by left | by rewrite app_nil_r].
Qed.

(** C5, as the code has it. Both engines remove every function or
    class definition whose name is in the set, at every depth of the
    tree, and keep a top-level definition [bar] that holds no such name
    as an unchanged subtree between what is left of the parts before and
    after it. The format-preserving engine renders the lossless tree:
    the text of [bar] stands byte for byte in what it returns, as it
    stands in the source, up to the newline that closes the file; and a
    name set none of whose names is defined (the empty set included)
    gives the source back. The structural engine returns the source
    itself for an empty name set; when it removes a definition it returns
    the rendering by [ast.unparse] of the tree that is left, [bar] being
    in it the subtree it was. *)
Theorem removal_engines_frame (ast : AstPatcher.ast_lib) (cst : CstPatcher.cst_lib) :
  CstPatcher.lossless cst →
  (∀ source, AstPatcher.delete_definitions ast source [] = Ok source)
  ∧ (∀ source names before bar after foo,
       AstPatcher.parse ast source = Some (before ++ bar :: after) →
       foo ∈ names → foo ∈ concat (map AstPatcher.defined_names (before ++ after)) →
       (∀ x, x ∈ AstPatcher.defined_names bar → x ∉ names) →
       AstPatcher.delete_definitions ast source names
       = Ok (AstPatcher.unparse ast
               (AstPatcher.visit_module names before ++ bar
                :: AstPatcher.visit_module names after)))
  ∧ (∀ names tree x,
       x ∈ names →
       x ∉ concat (map AstPatcher.defined_names (AstPatcher.visit_module names tree)))
  ∧ (∀ source names tree,
       CstPatcher.parse_module cst source = Some tree →
       (∀ x, x ∈ concat (map CstPatcher.defined_names tree) → x ∉ names) →
       CstPatcher.remove_definitions_cst cst source names = Ok source)
  ∧ (∀ source names before bar after,
       CstPatcher.parse_module cst source = Some (before ++ bar :: after) →
       (∀ x, x ∈ CstPatcher.defined_names bar → x ∉ names) →
       CstPatcher.code_for_node cst bar ≠ [] →
       ∃ returned kept_before kept_after nl nl',
         CstPatcher.remove_definitions_cst cst source names = Ok returned
         ∧ nl ∈ CstPatcher.closing_newlines ∧ nl' ∈ CstPatcher.closing_newlines
         ∧ source ++ nl
           = concat (map (CstPatcher.code_for_node cst) before)
             ++ CstPatcher.code_for_node cst bar
             ++ concat (map (CstPatcher.code_for_node cst) after)
         ∧ returned ++ nl' = kept_before ++ CstPatcher.code_for_node cst bar ++ kept_after
         ∧ kept_before
           = concat (map (CstPatcher.code_for_node cst) (CstPatcher.visit_module names before))
         ∧ kept_after
           = concat (map (CstPatcher.code_for_node cst) (CstPatcher.visit_module names after)))
  ∧ (∀ names tree x,
       x ∈ names →
       x ∉ concat (map CstPatcher.defined_names (CstPatcher.visit_module names tree)))
  ∧ (∀ source names,
       CstPatcher.parse_module cst source = None →
       CstPatcher.remove_definitions_cst cst source names = Raise SyntaxError).
Proof.
  intros [Hround Hparts].
  assert (Hframe : ∀ (l1 l2 : list CstPatcher.node) bar rendered,
            CstPatcher.code_for_node cst bar ≠ [] →
            CstPatcher.closes
              (concat (map (CstPatcher.code_for_node cst) (l1 ++ bar :: l2))) rendered →
            ∃ nl, nl ∈ CstPatcher.closing_newlines
                  ∧ rendered ++ nl
                    = concat (map (CstPatcher.code_for_node cst) l1)
                      ++ CstPatcher.code_for_node cst bar
                      ++ concat (map (CstPatcher.code_for_node cst) l2)).
  { intros l1 l2 bar rendered Hbar Hc.
    rewrite map_app, concat_app in Hc. cbn [map concat] in Hc.
    destruct Hc as [Hnil | (nl & Hnl & Hr)]; [|by exists nl].
    apply app_eq_nil in Hnil as [_ Hnil]. apply app_eq_nil in Hnil as [Hnil _]. done. }
  split; [done|]. split; [|split; [|split; [|split; [|split]]]].
  - intros source names before bar after foo Hparse Hfoo _ Hbar.
    unfold AstPatcher.delete_definitions.
    rewrite bool_decide_eq_false_2 by (intros ->; by apply elem_of_nil in Hfoo).
    rewrite Hparse. do 2 f_equal. unfold AstPatcher.visit_module.
    rewrite omap_app. csimpl. by rewrite (ast_visit_absent names bar Hbar).
  - intros names tree x Hx Hin.
    apply elem_of_concat in Hin as (ns & Hin & Hns).
    apply list_elem_of_fmap in Hns as (n' & -> & Hn').
    apply list_elem_of_omap in Hn' as (n & _ & Hv).
    by apply (ast_visit_removes names n n' Hv x).
  - intros source names tree Hparse Habs. unfold CstPatcher.remove_definitions_cst.
    rewrite Hparse, cst_visit_module_absent by done. f_equal. by apply Hround.
  - intros source names before bar after Hparse Hbar Htext.
    destruct (Hframe before after bar source Htext) as (nl & Hnl & Hsrc).
    { rewrite <- (Hround _ _ Hparse). apply Hparts. }
    destruct (Hframe (CstPatcher.visit_module names before)
                (CstPatcher.visit_module names after) bar
                (CstPatcher.code cst (CstPatcher.visit_module names before ++ bar
                                      :: CstPatcher.visit_module names after)) Htext)
      as (nl' & Hnl' & Hret); [apply Hparts|].
    eexists _, _, _, nl, nl'. split; [|split; [exact Hnl|split; [exact Hnl'|
      split; [exact Hsrc|split; [exact Hret|split; reflexivity]]]]].
    unfold CstPatcher.remove_definitions_cst. rewrite Hparse. f_equal.
    unfold CstPatcher.visit_module. rewrite omap_app. csimpl.
    by rewrite (cst_visit_absent names bar Hbar).
  - intros names tree x Hx Hin.
    apply elem_of_concat in Hin as (ns & Hin & Hns).
    apply list_elem_of_fmap in Hns as (n' & -> & Hn').
    apply list_elem_of_omap in Hn' as (n & _ & Hv).
    by apply (cst_visit_removes names n n' Hv x).
  - intros source names Hparse. unfold CstPatcher.remove_definitions_cst. by rewrite Hparse.
Qed.

(** C5, witness: [foo] is removed from a module that has a function
    [foo] and a class [bar] with no definition in it; the text of [bar],
    with the blank line that leads it, is what the engine returns. *)
Lemma removal_engines_frame_witness :
  ∃ returned kept_before kept_after nl nl',
    CstPatcher.remove_definitions_cst (reference_cst plain_source plain_tree)
      plain_source ["foo" : str] = Ok returned
    ∧ nl ∈ CstPatcher.closing_newlines ∧ nl' ∈ CstPatcher.closing_newlines
    ∧ plain_source ++ nl
      = concat (map CstPatcher.tokens [CstPatcher.plain_foo])
        ++ text [""; "class bar:"; "    x = 1"] ++ concat (map CstPatcher.tokens [])
    ∧ returned ++ nl' = kept_before ++ text [""; "class bar:"; "    x = 1"] ++ kept_after
    ∧ kept_before
      = concat (map CstPatcher.tokens (CstPatcher.visit_module ["foo" : str] [CstPatcher.plain_foo]))
    ∧ kept_after
      = concat (map CstPatcher.tokens (CstPatcher.visit_module ["foo" : str] [])).
Proof.
  assert (Hl : CstPatcher.lossless (reference_cst plain_source plain_tree))
    by (apply reference_cst_lossless; [vm_compute; reflexivity | discriminate]).
  destruct (removal_engines_frame (reference_ast commented_source commented_tree) _ Hl)
    as (_ & _ & _ & _ & Hframe & _).
  apply (Hframe plain_source ["foo" : str] [CstPatcher.plain_foo] CstPatcher.plain_bar []).
  - vm_compute. reflexivity.
  - intros x Hx. vm_compute in Hx. intros Hfoo. apply list_elem_of_singleton in Hfoo as ->.
    repeat (apply elem_of_cons in Hx as [Hx | Hx]; [by vm_compute in Hx|]).
    by apply elem_of_nil in Hx.
  - vm_compute. discriminate.
Defined.

(** C5, counterexample. Deleting [foo] from a module whose class [bar]
    has a method named [foo] removes the method too: the text the
    format-preserving engine returns no longer holds the span of [bar].
    And the structural engine returns what [ast.unparse] writes: deleting
    [foo] from a module whose [bar] has a comment returns [bar] without
    the comment, so the span of [bar] is not in the text returned. *)
Lemma removal_engines_change_span :
  let bar_span := text ["class bar:"; "    x = 1"; "    def foo(self):"; "        pass"] in
  let returned := text [""; "class bar:"; "    x = 1"] in
  let commented_span : str := "def bar():" ++ [NL] ++ "    return 1  # one" in
  let unparsed : str := "def bar():" ++ [NL] ++ "    return 1" in
  (CstPatcher.remove_definitions_cst (reference_cst nested_source nested_tree)
     nested_source ["foo" : str]
   = Ok returned
   ∧ contains bar_span nested_source = true
   ∧ contains bar_span returned = false
   ∧ CstPatcher.code (reference_cst nested_source nested_tree) nested_tree = nested_source)
  ∧ (AstPatcher.delete_definitions (reference_ast commented_source commented_tree)
       commented_source ["foo" : str]
     = Ok unparsed
     ∧ contains commented_span commented_source = true
     ∧ contains commented_span unparsed = false).
Proof. vm_compute. repeat split; reflexivity. Qed.

End RemovalEngines.

(** ** The structural delete: the span that is replaced *)

Section StructuralDelete.
Import PyStr Patcher.

Lemma find_char_None c (a : str) : c ∉ a → find [c] a = None.
Proof.
  induction a as [|x a IH]; intros Hc; [done|].
  apply not_elem_of_cons in Hc as [Hx Ha]. cbn.
  rewrite (proj2 (Ascii.eqb_neq c x) Hx). by rewrite (IH Ha).
Qed.

Lemma find_char_app c (a b : str) : c ∉ a → find [c] (a ++ c :: b) = Some (length a).
Proof.
  induction a as [|x a IH]; intros Hc.
  - cbn. by rewrite Ascii.eqb_refl.
  - apply not_elem_of_cons in Hc as [Hx Ha]. cbn.
    rewrite (proj2 (Ascii.eqb_neq c x) Hx). cbn in IH. by rewrite (IH Ha).
Qed.

Lemma rfind_char_None c (a : str) : c ∉ a → rfind [c] a = None.
Proof.
  induction a as [|x a IH]; intros Hc; [done|].
  apply not_elem_of_cons in Hc as [Hx Ha]. cbn.
  rewrite (IH Ha). by rewrite (proj2 (Ascii.eqb_neq c x) Hx).
Qed.

Lemma rfind_char_app c (p a : str) : c ∉ a → rfind [c] (p ++ c :: a) = Some (length p).
Proof.
  intros Hc. induction p as [|x p IH]; cbn.
  - rewrite (rfind_char_None c a Hc). by rewrite Ascii.eqb_refl.
  - cbn in IH. by rewrite IH.
Qed.

Lemma find_from_nl (front l more : str) :
  NL ∉ l →
  find_from [NL] (front ++ l ++ NL :: more) (length front) = Some (length front + length l).
Proof.
  intros Hl. unfold find_from.
  rewrite (proj2 (Nat.leb_le _ _)) by (rewrite length_app; lia).
  by rewrite drop_app_length, find_char_app.
Qed.

Lemma find_from_nl_end (front l : str) :
  NL ∉ l → find_from [NL] (front ++ l) (length front) = None.
Proof.
  intros Hl. unfold find_from.
  rewrite (proj2 (Nat.leb_le _ _)) by (rewrite length_app; lia).
  by rewrite drop_app_length, find_char_None.
Qed.

Lemma slice_middle (front l more : str) :
  slice (front ++ l ++ more) (length front) (length front + length l) = l.
Proof.
  unfold slice. rewrite drop_app_length.
  replace (length front + length l - length front) with (length l) by lia.
  by rewrite take_app_length.
Qed.

Lemma length_unlines (body : list str) : length body ≤ length (unlines body).
Proof.
  induction body as [|l body IH]; [done|]. unfold unlines in *. cbn.
  rewrite !length_app. cbn. lia.
Qed.

Lemma unlines_cons (l : str) (body : list str) : unlines (l :: body) = l ++ NL :: unlines body.
Proof. unfold unlines. cbn. by rewrite <- app_assoc. Qed.

(** Past the end of the text the loop does not run. *)
Lemma block_end_past fuel (code : str) w pos :
  length code ≤ pos → block_end fuel code w pos = pos.
Proof.
  intros Hpos. destruct fuel; [done|]. cbn [block_end].
  by rewrite (proj2 (Nat.ltb_ge _ _)).
Qed.

(** One round of the loop, on the line [l] that starts at [length front]. *)
Lemma block_end_round fuel (front l rest : str) w :
  NL ∉ l → (rest = [] ∨ ∃ more, rest = NL :: more) → l ++ rest ≠ [] →
  block_end (S fuel) (front ++ l ++ rest) w (length front)
  = if dedented w l then length front
    else block_end fuel (front ++ l ++ rest) w (length front + length l + 1).
Proof.
  intros Hl Hrest Hne. cbn [block_end].
  assert (Hlt : length front < length (front ++ l ++ rest)).
  { rewrite !length_app. destruct l, rest; simpl in *; try done; lia. }
  rewrite (proj2 (Nat.ltb_lt _ _) Hlt).
  assert (Hend : default (length (front ++ l ++ rest))
                   (find_from [NL] (front ++ l ++ rest) (length front))
                 = length front + length l).
  { destruct Hrest as [-> | [more ->]].
    - rewrite app_nil_r, find_from_nl_end by done. simpl. rewrite length_app. lia.
    - by rewrite find_from_nl. }
  rewrite Hend, slice_middle. unfold dedented.
  case_bool_decide; simpl; [done|]. by destruct (current_indent_of l <=? w).
Qed.

(** The loop passes over the lines of the block and stops at the first
    dedented line, or runs to the end of the text. *)
Lemma block_end_scan w (body : list str) :
  ∀ (front dl tail : str) fuel,
    Forall (λ l : str, (NL ∉ l) ∧ dedented w l = false) body →
    NL ∉ dl → (tail = [] ∨ ∃ more, tail = NL :: more) →
    (dedented w dl = false → tail = []) →
    length body + length (dl ++ tail) ≤ fuel →
    drop (block_end fuel (front ++ unlines body ++ dl ++ tail) w (length front))
         (front ++ unlines body ++ dl ++ tail)
    = if dedented w dl then dl ++ tail else [].
Proof.
  induction body as [|l body IH]; intros front dl tail fuel Hbody Hdl Htail Hlast Hfuel.
  - change (unlines []) with (@nil ascii). cbn [app].
    destruct (decide (dl ++ tail = [])) as [Hnil | Hne].
    + apply app_eq_nil in Hnil as [-> ->]. rewrite block_end_past by (rewrite !length_app; simpl; lia).
      rewrite app_nil_r, drop_all. by destruct (dedented w []).
    + destruct fuel as [|fuel].
      { destruct dl, tail; simpl in *; try done; lia. }
      rewrite block_end_round by done.
      destruct (dedented w dl) eqn:Hd.
      * by rewrite drop_app_length.
      * rewrite (Hlast eq_refl), app_nil_r.
        rewrite block_end_past by (rewrite length_app; lia).
        apply drop_ge. rewrite length_app. lia.
  - apply Forall_cons in Hbody as [[Hl Hd] Hbody].
    rewrite unlines_cons. rewrite <- !app_assoc. cbn [app].
    destruct fuel as [|fuel]; [simpl in Hfuel; lia|].
    rewrite block_end_round; [|done|eauto|by destruct l].
    rewrite Hd.
    specialize (IH (front ++ l ++ [NL]) dl tail fuel Hbody Hdl Htail Hlast).
    assert (Hcode : (front ++ l ++ [NL]) ++ unlines body ++ dl ++ tail
                    = front ++ l ++ NL :: unlines body ++ dl ++ tail)
      by (by rewrite <- !app_assoc).
    rewrite Hcode in IH.
    assert (Hlen : length (front ++ l ++ [NL]) = length front + length l + 1)
      by (rewrite !length_app; simpl; lia).
    rewrite Hlen in IH. apply IH. simpl in Hfuel. lia.
Qed.

End StructuralDelete.

Section StructuralDeleteSpan.
Import PyStr Patcher.

Lemma target_indent_leading (ind line : str) :
  Forall (λ c, c = SPACE ∨ c = TAB) ind →
  head line ≠ Some SPACE → head line ≠ Some TAB →
  target_indent_of ind = current_indent_of (ind ++ line).
Proof.
  intros Hind Hs Ht. induction Hind as [|c ind [-> | ->] _ IH]; cbn.
  - destruct line as [|c line]; [done|]. cbn.
    rewrite (proj2 (Ascii.eqb_neq c SPACE)) by (intros ->; done).
    by rewrite (proj2 (Ascii.eqb_neq c TAB)) by (intros ->; done).
  - by rewrite IH.
  - by rewrite IH.
Qed.

(** The span of the structural delete, as the code computes it. Let the
    signature be first found on the line [ind ++ line], the
    text before that line being [pre]; let the lines after it be [body],
    none of them dedented, followed by the line [dl] and the text [tail].
    The indentation of the signature is the count of spaces and tabs
    before it, its leading indentation when [ind] is blank. When [dl] is
    dedented (not blank, indented at most as much), the structural delete
    returns [pre], the replacement, and then [dl] and [tail] as they
    were, with nothing between the replacement and [dl]; when no dedented
    line follows, the span runs to the end of the text. *)
Theorem smart_delete_replaces_block :
  (∀ (pre ind line : str) (body : list str) (dl tail signature replace_block : str),
     let modified_code := pre ++ ind ++ line ++ [NL] ++ unlines body ++ dl ++ tail in
     let w := target_indent_of ind in
     find signature modified_code = Some (length (pre ++ ind)) →
     (pre = [] ∨ ∃ p, pre = p ++ [NL]) →
     NL ∉ ind → NL ∉ line →
     Forall (λ l : str, (NL ∉ l) ∧ dedented w l = false) body →
     NL ∉ dl → (tail = [] ∨ ∃ more, tail = NL :: more) →
     (dedented w dl = false → tail = []) →
     smart_delete modified_code signature replace_block
     = Some (pre ++ replace_block ++ (if dedented w dl then dl ++ tail else [])))
  ∧ (∀ (pre ind line signature replace_block : str),
       find signature (pre ++ ind ++ line) = Some (length (pre ++ ind)) →
       (pre = [] ∨ ∃ p, pre = p ++ [NL]) →
       NL ∉ ind → NL ∉ line →
       smart_delete (pre ++ ind ++ line) signature replace_block = Some (pre ++ replace_block))
  ∧ (∀ ind line : str,
       Forall (λ c, c = SPACE ∨ c = TAB) ind →
       head line ≠ Some SPACE → head line ≠ Some TAB →
       target_indent_of ind = current_indent_of (ind ++ line)).
Proof.
  assert (Hstart : ∀ (pre ind rest : str),
            (pre = [] ∨ ∃ p, pre = p ++ [NL]) → NL ∉ ind →
            from_option S 0 (rfind_upto [NL] (pre ++ ind ++ rest) (length (pre ++ ind)))
            = length pre).
  { intros pre ind rest Hpre Hind. unfold rfind_upto.
    rewrite (app_assoc pre ind rest), take_app_length.
    destruct Hpre as [-> | [p ->]].
    - rewrite app_nil_l. by rewrite (rfind_char_None NL ind Hind).
    - rewrite <- app_assoc. cbn [app]. rewrite (rfind_char_app NL p ind Hind).
      cbn. rewrite length_app. simpl. lia. }
  split; [|split; [|exact target_indent_leading]].
  - intros pre ind line body dl tail signature replace_block modified_code w
      Hfind Hpre Hind Hline Hbody Hdl Htail Hlast.
    unfold smart_delete. rewrite Hfind. f_equal.
    assert (Hls : from_option S 0 (rfind_upto [NL] modified_code (length (pre ++ ind)))
                  = length pre) by (by apply Hstart).
    rewrite Hls.
    assert (Hend : default (length modified_code)
                     (find_from [NL] modified_code (length (pre ++ ind)))
                   = length (pre ++ ind) + length line).
    { unfold modified_code. rewrite (app_assoc pre ind). cbn [app].
      by rewrite find_from_nl. }
    rewrite Hend.
    assert (Hslice : slice modified_code (length pre) (length (pre ++ ind)) = ind).
    { unfold modified_code. rewrite length_app. apply slice_middle. }
    rewrite Hslice. fold w.
    assert (Hcode : modified_code = (pre ++ ind ++ line ++ [NL]) ++ unlines body ++ dl ++ tail).
    { unfold modified_code. by rewrite <- !app_assoc. }
    assert (Hpos : length (pre ++ ind) + length line + 1 = length (pre ++ ind ++ line ++ [NL])).
    { rewrite !length_app. simpl. lia. }
    rewrite Hpos.
    assert (Hlen : length body + length (dl ++ tail) ≤ length modified_code).
    { pose proof (length_unlines body). unfold modified_code. rewrite !length_app. lia. }
    assert (Htake : take (length pre) modified_code = pre)
      by (unfold modified_code; by rewrite take_app_length).
    rewrite Htake. clear Hfind Hls Hend Hslice Htake. clearbody modified_code. subst modified_code.
    by rewrite block_end_scan.
  - intros pre ind line signature replace_block Hfind Hpre Hind Hline.
    unfold smart_delete. rewrite Hfind. f_equal.
    rewrite (Hstart pre ind _ Hpre Hind).
    rewrite (app_assoc pre ind line), find_from_nl_end by done. cbn [default].
    rewrite block_end_past by lia.
    rewrite drop_ge by lia. rewrite <- app_assoc, take_app_length.
    by rewrite app_nil_r.
Qed.

(** An instance: a method with a five-line body, followed by a sibling
    method at the indentation of the signature. The signature line and
    the five lines are replaced, and the text from the sibling on follows
    the replacement directly. The same text is what the whole call
    returns for the patch block that elides the body. *)
Lemma smart_delete_replaces_block_witness :
  let before := text ["class A:"] in
  let sibling_on := text ["    def bar(self):"; "        return 0"] in
  let modified_code :=
    before
    ++ text ["    def foo(self):"; "        a = 1"; "        b = 2"; "        c = 3";
             "        d = 4"; "        return a"]
    ++ sibling_on in
  let replace_block : str := "    def foo(self): pass" in
  smart_delete modified_code "def foo(self):" replace_block
  = Some (before ++ replace_block ++ sibling_on)
  ∧ apply_patches_robust modified_code
      (text ["<<<<<<< SEARCH"; "    def foo(self):"; "        <ELLIPSIS>"; "=======";
             "    def foo(self): pass"; ">>>>>>> REPLACE"])
    = Ok (before ++ replace_block ++ sibling_on, []).
Proof.
  intros before sibling_on modified_code replace_block. split.
  - apply (proj1 smart_delete_replaces_block
             before "    " "def foo(self):"
             ["        a = 1" : str; "        b = 2" : str; "        c = 3" : str;
              "        d = 4" : str; "        return a" : str]
             "    def bar(self):" (NL :: text ["        return 0"])
             "def foo(self):" replace_block).
    + vm_compute. reflexivity.
    + right. exists ("class A:" : str). reflexivity.
    + apply (proj1 (bool_decide_eq_false _)). vm_compute. reflexivity.
    + apply (proj1 (bool_decide_eq_false _)). vm_compute. reflexivity.
    + repeat (apply Forall_cons; split;
              [split; [apply (proj1 (bool_decide_eq_false _)) |]; vm_compute; reflexivity|]).
      constructor.
    + apply (proj1 (bool_decide_eq_false _)). vm_compute. reflexivity.
    + right. eexists. reflexivity.
    + vm_compute. discriminate.
  - vm_compute. reflexivity.
Defined.

(** C2. The example of the claim, run on the code. The search block
    elides the five-line body of [foo], which is followed by the sibling
    [bar] at the indentation of [foo]. The replacement is stripped of its
    newlines and put in place of the span with no line break after it, so
    the line of the sibling is joined to the replacement: the text of
    nine lines comes back as three lines, and [    def bar(self):] is no
    longer a line of it. The span found is the one the claim describes;
    the sibling is not left untouched. *)
Theorem smart_delete_joins_sibling_line :
  let modified_code :=
    text ["class A:"; "    def foo(self):"; "        a = 1"; "        b = 2"; "        c = 3";
          "        d = 4"; "        return a"; "    def bar(self):"; "        return 0"] in
  let patch_text :=
    text ["<<<<<<< SEARCH"; "    def foo(self):"; "        <ELLIPSIS>"; "=======";
          "    def foo(self): pass"; ">>>>>>> REPLACE"] in
  let returned :=
    text ["class A:"; "    def foo(self): pass    def bar(self):"; "        return 0"] in
  apply_patches_robust modified_code patch_text = Ok (returned, [])
  ∧ length (splitlines modified_code) = 9
  ∧ length (splitlines returned) = 3
  ∧ bool_decide (("    def bar(self):" : str) ∈ splitlines modified_code) = true
  ∧ bool_decide (("    def bar(self):" : str) ∈ splitlines returned) = false
  ∧ bool_decide (("    def foo(self): pass" : str) ∈ splitlines returned) = false.
Proof. vm_compute. repeat split; reflexivity. Qed.

End StructuralDeleteSpan.

(** ** The bounded loops have rounds enough *)

Section Fuel.
Import PyStr Patcher.

Lemma find_empty_text (sep : str) : sep ≠ [] → find sep [] = None.
Proof. by destruct sep. Qed.

(** Any two bounds of at least the length of the text give the same
    split: the bound [length s] of [split] never cuts the loop short. *)
Lemma split_fuel_enough (sep : str) :
  sep ≠ [] →
  ∀ fuel1 fuel2 (s : str),
    length s ≤ fuel1 → length s ≤ fuel2 → split_fuel fuel1 sep s = split_fuel fuel2 sep s.
Proof.
  intros Hsep. induction fuel1 as [|f1 IH]; intros fuel2 s H1 H2.
  - destruct s; [|simpl in H1; lia].
    destruct fuel2; cbn [split_fuel]; [done|]. by rewrite find_empty_text.
  - destruct fuel2 as [|f2].
    + destruct s; [|simpl in H2; lia]. cbn [split_fuel]. by rewrite find_empty_text.
    + cbn [split_fuel]. destruct (find sep s) as [i|] eqn:Hfind; [|done].
      f_equal. destruct s as [|c s]; [by rewrite find_empty_text in Hfind|].
      assert (0 < length sep) by (destruct sep; [done | simpl; lia]).
      apply IH; rewrite length_drop; simpl in *; lia.
Qed.

Lemma find_from_ge (sub s : str) start i : find_from sub s start = Some i → start ≤ i.
Proof.
  unfold find_from. destruct (start <=? length s); [|done].
  destruct (find sub (drop start s)); simpl; [|done]. intros [= <-]. lia.
Qed.

(** Any two bounds of at least the number of characters left give the
    same block end: the bound [length modified_code] of [smart_delete]
    never cuts the loop short. *)
Lemma block_end_fuel (code : str) w :
  ∀ fuel1 fuel2 pos,
    length code - pos ≤ fuel1 → length code - pos ≤ fuel2 →
    block_end fuel1 code w pos = block_end fuel2 code w pos.
Proof.
  induction fuel1 as [|f1 IH]; intros fuel2 pos H1 H2.
  - by rewrite !block_end_past by lia.
  - destruct fuel2 as [|f2]; [by rewrite !block_end_past by lia|].
    cbn [block_end]. destruct (pos <? length code) eqn:Hpos; [|done].
    apply Nat.ltb_lt in Hpos.
    assert (Hnext : pos ≤ default (length code) (find_from [NL] code pos)).
    { destruct (find_from [NL] code pos) as [i|] eqn:Hi; simpl; [|lia].
      by apply find_from_ge in Hi. }
    repeat case_match; try done; apply IH; lia.
Qed.

End Fuel.

(** * Further properties *)

(** ** The dependency graph: what a build holds and what the queries return *)

Section GraphContents.
Import PyStr Graph GraphQueries.

Lemma foldl_invariant {A B : Type} (I : B → Prop) (f : B → A → B) (l : list A) (b : B) :
  I b → (∀ b a, a ∈ l → I b → I (f b a)) → I (foldl f b l).
Proof.
  revert b. induction l as [|a l IH]; intros b Hb Hf; simpl; [done|].
  apply IH.
  - apply Hf; [left | done].
  - intros b' a' Ha'. apply Hf. by right.
Qed.

Lemma startswith_spec (p s : str) : startswith p s = true ↔ ∃ r, s = p ++ r.
Proof.
  revert s. induction p as [|a p IH]; intros s; simpl.
  - split; [eauto | done].
  - destruct s as [|b s]; [split; [done | intros [r Hr]; done]|].
    destruct (Ascii.eqb a b) eqn:Hab.
    + apply Ascii.eqb_eq in Hab as ->. rewrite IH. split.
      * intros [r ->]. by exists r.
      * intros [r [= ->]]. by exists r.
    + apply Ascii.eqb_neq in Hab. split; [done | intros [r [= -> _]]; done].
Qed.

Lemma endswith_spec (p s : str) : endswith p s = true ↔ ∃ r, s = r ++ p.
Proof.
  unfold endswith. rewrite startswith_spec. split.
  - intros [r Hr]. exists (reverse r).
    apply (inj reverse). by rewrite reverse_app, reverse_involutive.
  - intros [r ->]. exists (reverse r). by rewrite reverse_app.
Qed.

Lemma add_module_values (Q : str → Prop) (m : gmap str str) (p : str) :
  (∀ k v, m !! k = Some v → Q v) → (endswith ".py" p = true → Q p) →
  ∀ k v, add_module m p !! k = Some v → Q v.
Proof.
  intros Hm Hp k v. unfold add_module.
  destruct (endswith ".py" p); cbn [negb]; [|apply Hm].
  destruct (endswith "__init__.py" p).
  - intros [[_ <-] | [_ [[_ <-] | [_ Hk]]%lookup_insert_Some]]%lookup_insert_Some; eauto.
  - intros [[_ <-] | [_ Hk]]%lookup_insert_Some; eauto.
Qed.

Lemma build_module_map_values (Q : str → Prop) (paths : list str) (m : gmap str str) :
  (∀ k v, m !! k = Some v → Q v) →
  (∀ p, p ∈ paths → endswith ".py" p = true → Q p) →
  ∀ k v, _build_module_map m paths !! k = Some v → Q v.
Proof.
  intros Hm Hp. unfold _build_module_map.
  apply (foldl_invariant (λ m : gmap str str, ∀ k v, m !! k = Some v → Q v)); [done|].
  intros m' p Hin Hm'. apply add_module_values; [done | by apply Hp].
Qed.

Lemma resolve_import_value (m : gmap str str) (s f : str) :
  _resolve_import m s = Some f → ∃ k, m !! k = Some f.
Proof. intros (k & _ & Hk & _)%peel_back_some. eauto. Qed.

(** X1. A file that resolution returns is one of the paths the module map
    was built from, and it ends with [.py]; so it is never the empty
    string that [if target_path:] would take for no result. *)
Theorem resolved_file_is_indexed (paths : list str) (import_str f : str) :
  _resolve_import (_build_module_map ∅ paths) import_str = Some f →
  f ∈ paths ∧ endswith ".py" f = true ∧ f ≠ [].
Proof.
  intros [k Hk]%resolve_import_value.
  apply (build_module_map_values (λ v, v ∈ paths ∧ endswith ".py" v = true ∧ v ≠ [])
           paths ∅) in Hk; [done | by intros ?? ?%lookup_empty_Some |].
  intros p Hp Hpy. split; [done|]. split; [done|]. by intros ->.
Qed.

Lemma resolved_file_is_indexed_witness :
  ("core/graph.py" : str) ∈ ["core/graph.py" : str; "notes.txt" : str]
  ∧ endswith ".py" "core/graph.py" = true ∧ ("core/graph.py" : str) ≠ [].
Proof.
  apply (resolved_file_is_indexed ["core/graph.py" : str; "notes.txt" : str]
           "core.graph.DependencyGraph").
  vm_compute. reflexivity.
Defined.

(** X2. An import string that is itself a key of the module map resolves
    to the file of that key, whatever shorter prefixes map to. *)
Theorem resolve_import_exact_key (module_to_path : gmap str str) (import_str f : str) :
  module_to_path !! import_str = Some f →
  _resolve_import module_to_path import_str = Some f.
Proof.
  intros Hf. unfold _resolve_import.
  pose proof (split_char_nonempty "." import_str) as Hne.
  destruct (split_char "." import_str) as [|w ws] eqn:Hparts; [done|].
  change (length (w :: ws)) with (S (length ws)). rewrite peel_back_S.
  change (S (length ws)) with (length (w :: ws)). rewrite firstn_all.
  assert (Hj : join "." (w :: ws) = import_str)
    by (rewrite <- Hparts; apply (join_split_char "."%char)).
  by rewrite Hj, Hf.
Qed.

Lemma resolve_import_exact_key_witness :
  _resolve_import {[("pkg" : str) := ("pkg/__init__.py" : str)]} "pkg"
  = Some ("pkg/__init__.py" : str).
Proof. apply resolve_import_exact_key. vm_compute. reflexivity. Defined.

(** X3. A package-root file gets two entries: once the file is the last
    path read, its module name and its package name both map to it. *)
Theorem package_root_two_entries (module_to_path : gmap str str) (paths : list str) (p : str) :
  endswith "__init__.py" p = true →
  let built := _build_module_map module_to_path (paths ++ [p]) in
  built !! replace "\" "." (replace "/" "." (take (length p - 3) p)) = Some p
  ∧ built !! replace "\" "." (replace "/" "." (take (length p - 12) p)) = Some p.
Proof.
  intros Hinit built. unfold built, _build_module_map. rewrite foldl_app. simpl.
  assert (Hpy : endswith ".py" p = true).
  { apply endswith_spec in Hinit as [r ->]. apply endswith_spec.
    exists (r ++ "__init__"). by rewrite <- app_assoc. }
  unfold add_module. rewrite Hpy, Hinit. cbn [negb]. split.
  - rewrite lookup_insert. case_decide; [done|]. by rewrite lookup_insert_eq.
  - by rewrite lookup_insert_eq.
Qed.

Lemma package_root_two_entries_witness :
  let built := _build_module_map ∅ (["core/x.py" : str] ++ ["core/planner/__init__.py" : str]) in
  built !! ("core.planner.__init__" : str) = Some ("core/planner/__init__.py" : str)
  ∧ built !! ("core.planner" : str) = Some ("core/planner/__init__.py" : str).
Proof.
  apply (package_root_two_entries ∅ ["core/x.py" : str] "core/planner/__init__.py").
  vm_compute. reflexivity.
Defined.

End GraphContents.

Section GraphNodes.
Import PyStr Graph GraphQueries.

Lemma add_nodes_spans {A : Type} (h : A → str) (l : list A) :
  spans (list_to_set (map h l)) (foldl (λ g x, add_node g (h x)) empty_graph l).
Proof.
  assert (H : ∀ g, nodes (foldl (λ g x, add_node g (h x)) g l) = list_to_set (map h l) ∪ nodes g
                   ∧ edges (foldl (λ g x, add_node g (h x)) g l) = edges g).
  { induction l as [|x l IH]; intros g; simpl.
    - split; [set_solver | done].
    - destruct (IH (add_node g (h x))) as [-> ->]. simpl. split; [set_solver | done]. }
  destruct (H empty_graph) as [Hn He]. split.
  - rewrite Hn. simpl. set_solver.
  - intros u v. rewrite He. simpl. set_solver.
Qed.

Lemma add_edge_spans (P : gset str) g u v : u ∈ P → v ∈ P → spans P g → spans P (add_edge g u v).
Proof.
  intros Hu Hv [Hn He]. split; simpl.
  - rewrite Hn. set_solver.
  - intros a b [Hab%elem_of_singleton | Hab]%elem_of_union; [by simplify_eq | by apply He].
Qed.

Lemma add_import_spans (P : gset str) m importer st import_str :
  importer ∈ P → (∀ k v, m !! k = Some v → v ∈ P) →
  spans P (bs_graph st) → spans P (bs_graph (add_import m importer st import_str)).
Proof.
  intros Himp Hm Hst. unfold add_import.
  destruct (_resolve_import m import_str) as [target|] eqn:Hres; [|done].
  apply resolve_import_value in Hres as [k Hk%Hm].
  repeat case_bool_decide; simpl; try done. by apply add_edge_spans.
Qed.

Lemma build_from_database_spans self db :
  graph self = empty_graph → _module_to_path self = ∅ →
  spans (list_to_set (map snd (files db))) (graph (_build_from_database self db).1).
Proof.
  intros Hg Hm. unfold _build_from_database. rewrite Hg, Hm.
  set (P := list_to_set (map snd (files db)) : gset str).
  pose proof (add_nodes_spans (A := Z * str) snd (files db)) as Hnodes. fold P in Hnodes.
  destruct (imports db) as [rows|]; simpl; [|done].
  apply (foldl_invariant (λ st, spans P (bs_graph st))); [done|].
  intros st row _ Hst. destruct (_ !! row.1) as [importer|] eqn:Hid; [|done].
  apply add_import_spans; [| |done].
  - revert Hid.
    apply (foldl_invariant
             (λ idm : gmap Z str, idm !! row.1 = Some importer → importer ∈ P));
      [by intros ?%lookup_empty_Some|].
    intros idm r Hr Hidm [[_ <-] | [_ ?]]%lookup_insert_Some; [|by apply Hidm].
    apply elem_of_list_to_set, list_elem_of_fmap. eauto.
  - apply build_module_map_values; [by intros ?? ?%lookup_empty_Some|].
    intros p Hp _. by apply elem_of_list_to_set.
Qed.

Lemma build_from_artifacts_spans self artifacts :
  graph self = empty_graph → _module_to_path self = ∅ →
  spans (list_to_set (map fst artifacts)) (graph (_build_from_artifacts self artifacts)).
Proof.
  intros Hg Hm. unfold _build_from_artifacts. rewrite Hg, Hm. simpl.
  set (P := list_to_set (map fst artifacts) : gset str).
  assert (Hnodes : spans P (foldl add_node empty_graph (map fst artifacts))).
  { pose proof (add_nodes_spans (A := str) id (map fst artifacts)) as H.
    by rewrite map_id in H. }
  apply (foldl_invariant (λ st, spans P (bs_graph st))); [done|].
  intros st item Hitem Hst. case_bool_decide; [|done].
  apply (foldl_invariant (λ st, spans P (bs_graph st))); [done|].
  intros st' import_str _ Hst'. apply add_import_spans; [| |done].
  - apply elem_of_list_to_set, list_elem_of_fmap. eauto.
  - apply build_module_map_values; [by intros ?? ?%lookup_empty_Some|].
    intros p Hp _. by apply elem_of_list_to_set.
Qed.

Lemma build_nodes_are_the_indexed_paths_aux self db from_artifacts :
  ∃ P, spans P (graph (build self db from_artifacts)).
Proof.
  destruct from_artifacts as [artifacts|]; [|destruct db as [d|]].
  - eexists. exact (build_from_artifacts_spans
                      (DependencyGraph empty_graph (is_built self) ∅) artifacts eq_refl eq_refl).
  - eexists. unfold build.
    pose proof (build_from_database_spans (DependencyGraph empty_graph (is_built self) ∅) d
                  eq_refl eq_refl) as H.
    destruct (_build_from_database _ d). exact H.
  - exists ∅. split; [done|]. intros u v Huv. simpl in Huv. set_solver.
Qed.

(** X4. After a build from the index the nodes of the graph are exactly
    the paths of the [files] table, also when the [imports] query raises,
    and after a build from an artifact map exactly its keys; every edge
    joins two of these paths. An import never adds a node of its own. *)
Theorem build_nodes_are_the_indexed_paths :
  (∀ self d,
     spans (list_to_set (map snd (files d))) (graph (build self (Some d) None)))
  ∧ (∀ self db artifacts,
       spans (list_to_set (map fst artifacts)) (graph (build self db (Some artifacts))))
  ∧ (∀ self, spans ∅ (graph (build self None None))).
Proof.
  split; [|split].
  - intros self d. unfold build.
    pose proof (build_from_database_spans (DependencyGraph empty_graph (is_built self) ∅) d
                  eq_refl eq_refl) as H.
    by destruct (_build_from_database _ d).
  - intros self db artifacts.
    exact (build_from_artifacts_spans (DependencyGraph empty_graph (is_built self) ∅) artifacts
             eq_refl eq_refl).
  - intros self. split; [done|]. intros u v Huv. simpl in Huv. set_solver.
Qed.


Lemma build_graph_edges_in_nodes self db from_artifacts u v :
  (u, v) ∈ edges (graph (build self db from_artifacts)) →
  u ∈ nodes (graph (build self db from_artifacts))
  ∧ v ∈ nodes (graph (build self db from_artifacts)).
Proof.
  destruct build_nodes_are_the_indexed_paths_aux with (self := self) (db := db)
    (from_artifacts := from_artifacts) as (P & Hn & He).
  rewrite Hn. apply He.
Qed.

End GraphNodes.

Section GraphQueryProperties.
Import PyStr Graph GraphQueries.


Lemma ensure_built_graph self db :
  is_built self = false → graph (ensure_built self db) = graph (build self db None).
Proof. intros H. unfold ensure_built. by rewrite H. Qed.

Lemma elem_of_predecessors g a b : a ∈ predecessors g b ↔ (a, b) ∈ edges g.
Proof.
  unfold predecessors. rewrite elem_of_map. split.
  - intros ([u v] & -> & [Hv He]%elem_of_filter). simpl in *. by subst.
  - intros He. exists (a, b). split; [done|]. by apply elem_of_filter.
Qed.

Lemma elem_of_successors g a b : b ∈ successors g a ↔ (a, b) ∈ edges g.
Proof.
  unfold successors. rewrite elem_of_map. split.
  - intros ([u v] & -> & [Hv He]%elem_of_filter). simpl in *. by subst.
  - intros He. exists (a, b). split; [done|]. by apply elem_of_filter.
Qed.

Lemma elem_of_callers self db a b :
  is_built self = false →
  a ∈ (get_callers_of self db b).1 ↔ (a, b) ∈ edges (graph (build self db None)).
Proof.
  intros H. unfold get_callers_of. cbn [fst]. rewrite (ensure_built_graph _ _ H).
  unfold has_node. case_bool_decide as Hb.
  - apply elem_of_predecessors.
  - split; [set_solver|]. intros He. by apply build_graph_edges_in_nodes in He as [_ ?].
Qed.

Lemma elem_of_dependencies self db a b :
  is_built self = false →
  b ∈ (get_dependencies_of self db a).1 ↔ (a, b) ∈ edges (graph (build self db None)).
Proof.
  intros H. unfold get_dependencies_of. cbn [fst]. rewrite (ensure_built_graph _ _ H).
  unfold has_node. case_bool_decide as Hb.
  - apply elem_of_successors.
  - split; [set_solver|]. intros He. by apply build_graph_edges_in_nodes in He as [? _].
Qed.

(** X5. On an instance that has not been built, the two queries are
    converse: [a] is among the callers of [b] exactly when [b] is among
    the dependencies of [a]. The [has_node] guards of the two methods
    never make them disagree. *)
Theorem callers_dependencies_converse self db a b
    (Hfresh : is_built self = false) :
  a ∈ (get_callers_of self db b).1 ↔ b ∈ (get_dependencies_of self db a).1.
Proof. by rewrite elem_of_callers, elem_of_dependencies. Qed.

Lemma callers_dependencies_converse_witness :
  let self := DependencyGraph empty_graph false ∅ in
  let db := Some (Database [(1%Z, "app/main.py" : str); (2%Z, "app/util.py" : str)]
                           (Some [(1%Z, "app.util" : str)])) in
  is_built self = false
  ∧ ("app/main.py" : str) ∈ (get_callers_of self db "app/util.py").1
  ∧ ("app/util.py" : str) ∈ (get_dependencies_of self db "app/main.py").1.
Proof.
  intros self db.
  assert (Hc : ("app/main.py" : str) ∈ (get_callers_of self db "app/util.py").1).
  { vm_compute. set_solver. }
  split; [reflexivity|]. split; [exact Hc|].
  exact (proj1 (callers_dependencies_converse self db "app/main.py" "app/util.py" eq_refl) Hc).
Defined.





End GraphQueryProperties.

Section ResolverSoundness.
Import PyStr Resolver ResolverMatch.
#[local] Open Scope float_scope.

Lemma max_from_elem {A K : Type} (gt : K → K → bool) (key : A → K) best l :
  max_from gt key best l ∈ best :: l.
Proof.
  revert best. induction l as [|x l IH]; intros best; simpl; [set_solver|].
  destruct (gt (key x) (key best)).
  - apply elem_of_cons. right. apply IH.
  - specialize (IH best). set_solver.
Qed.

Lemma py_max_elem {A K : Type} (gt : K → K → bool) (key : A → K) l x :
  py_max gt key l = Some x → x ∈ l.
Proof. destruct l as [|y l]; [done|]. intros [= <-]. apply max_from_elem. Qed.

Lemma exact_match_sound table n m : _exact_match table n = Some m → sound table n m.
Proof.
  unfold _exact_match. destruct (filter _ table) as [|r rs] eqn:Hf; [done|].
  intros [= <-]. assert (Hr : r ∈ filter (λ r : row, r.2 = n) table) by (rewrite Hf; set_solver).
  apply list_elem_of_filter in Hr as [Hp Hr]. split; simpl; [by destruct r | done].
Qed.

Lemma suffix_match_sound table n m : _suffix_match table n = Some m → sound table n m.
Proof.
  unfold _suffix_match. destruct (py_max _ _ _) as [best|] eqn:Hmax; [|done].
  intros [= <-]. apply py_max_elem, list_elem_of_filter in Hmax as [Hp Hr].
  split; simpl; [by destruct best | done].
Qed.

Lemma filename_match_sound table n m : _filename_match table n = Some m → sound table n m.
Proof.
  unfold _filename_match. destruct (py_max _ _ _) as [best|] eqn:Hmax; [|done].
  intros [= <-]. apply py_max_elem, list_elem_of_filter in Hmax as [Hp Hr].
  split; simpl; [by destruct best | done].
Qed.

Lemma fuzzy_match_sound table n m : _fuzzy_match table n = Some m → sound table n m.
Proof.
  unfold _fuzzy_match. destruct (py_max _ _ _) as [[best s]|] eqn:Hmax; [|done].
  destruct (0.5 <=? s) eqn:Hs; [|done]. intros [= <-].
  apply py_max_elem, list_elem_of_fmap in Hmax as (r & [= -> ->] & Hr).
  split; simpl; [by destruct r | done].
Qed.

Lemma best_of_invariant (P : FileMatch → Prop) ss n b :
  Forall (λ s, ∀ m, s n = Some m → P m) ss →
  (∀ m, b = Some m → P m) →
  ∀ m, best_of ss n b = Some m → P m.
Proof.
  intros Hss. revert b. induction Hss as [|s ss Hs _ IH]; intros b Hb m; simpl; [apply Hb|].
  destruct (s n) as [c|] eqn:Hc; [|by apply IH].
  destruct (match b with None => true | Some b0 => float_gt (score c) (score b0) end).
  - destruct (0.95 <=? score c).
    + intros [= <-]. by apply Hs.
    + apply IH. intros ? [= <-]. by apply Hs.
  - by apply IH.
Qed.

(** X8. A match that [resolve] returns is a row of the [files] table, with
    the id and the path of that same row, and its path passes the test of
    the strategy the match is tagged with: equal to the normalised
    fragment for [exact], [LIKE '%fragment'] for [suffix],
    [LIKE '%filename'] for [filename], character ratio at least 0.5 for
    [fuzzy]. No path is made up and no tag is borrowed. *)
Theorem resolve_returns_indexed_row table path_fragment m
    (Hm : resolve table path_fragment = Some m) :
  (file_id m, path m) ∈ table
  ∧ matches_by (match_type m) (normalize path_fragment) (path m).
Proof.
  revert Hm. unfold resolve.
  destruct (best_candidate table path_fragment) as [b|] eqn:Hb; [|done].
  destruct (score b <? 0.3); [done|]. intros [= <-]. revert b Hb.
  apply (best_of_invariant (sound table (normalize path_fragment))); [|done].
  unfold strategies. repeat apply Forall_cons_2; [| | | |apply Forall_nil_2].
  - apply exact_match_sound.
  - apply suffix_match_sound.
  - apply filename_match_sound.
  - apply fuzzy_match_sound.
Qed.

Lemma resolve_returns_indexed_row_witness :
  let table : list row := [(1%Z, "core/scanner.py" : str); (2%Z, "core/scanner_old.py" : str)] in
  (1%Z, "core/scanner.py" : str) ∈ table
  ∧ matches_by Fuzzy (normalize "scanner.py") "core/scanner.py".
Proof.
  intros table.
  exact (resolve_returns_indexed_row table "scanner.py"
           (mkFileMatch 1 "core/scanner.py" _ Fuzzy) ltac:(vm_compute; reflexivity)).
Defined.

(** X9. A fragment that, once backslashes are turned into slashes and the
    surrounding whitespace is stripped, is a path of the table resolves
    to that path with score 1 and tag [exact], whatever else the table
    holds: the later strategies are not consulted. *)
Theorem resolve_indexed_path_exact table path_fragment id
    (Hrow : (id, normalize path_fragment) ∈ table) :
  ∃ id', resolve table path_fragment
         = Some (mkFileMatch id' (normalize path_fragment) 1 Exact)
         ∧ (id', normalize path_fragment) ∈ table.
Proof.
  assert (Hf : (id, normalize path_fragment)
               ∈ filter (λ r : row, r.2 = normalize path_fragment) table)
    by by apply list_elem_of_filter.
  destruct (filter (λ r : row, r.2 = normalize path_fragment) table) as [|[id' p] rs] eqn:Hrows;
    [by apply elem_of_nil in Hf|].
  assert (Hr : (id', p) ∈ filter (λ r : row, r.2 = normalize path_fragment) table)
    by (rewrite Hrows; set_solver).
  apply list_elem_of_filter in Hr as [Hp Hr]. simpl in Hp. subst p.
  exists id'. split; [|done].
  unfold resolve, best_candidate, strategies. cbn [best_of]. unfold _exact_match at 1.
  rewrite Hrows. reflexivity.
Qed.

Lemma resolve_indexed_path_exact_witness :
  ∃ id', resolve [(7%Z, "core/graph.py" : str); (8%Z, "graph.py" : str)] " core\graph.py "
         = Some (mkFileMatch id' (normalize " core\graph.py ") 1 Exact)
         ∧ (id', normalize " core\graph.py ")
           ∈ [(7%Z, "core/graph.py" : str); (8%Z, "graph.py" : str)].
Proof.
  apply (resolve_indexed_path_exact _ " core\graph.py " 7%Z).
  vm_compute. set_solver.
Defined.

Lemma common_count_comm `{Countable A} (a b : list A) : common_count a b = common_count b a.
Proof. unfold common_count. f_equal. set_solver. Qed.

(** X10. Both similarity measures are symmetric in their two arguments. *)
Theorem similarity_symmetric (a b : str) :
  _path_similarity a b = _path_similarity b a
  ∧ _levenshtein_ratio a b = _levenshtein_ratio b a.
Proof.
  split.
  - unfold _path_similarity.
    rewrite (common_count_comm (split_char "/" a)), (Nat.max_comm (length (split_char "/" a))).
    by rewrite orb_comm.
  - unfold _levenshtein_ratio.
    rewrite (orb_comm (bool_decide (a = []))), (orb_comm (contains a b)).
    rewrite (common_count_comm a), (Nat.max_comm (length a)),
      (Nat.max_comm (distinct_count a)). done.
Qed.

End ResolverSoundness.

Section CleanCode.
Import PyStr Worker.

Lemma lstrip_by_head f s :
  match lstrip_by f s with c :: _ => f c = false | [] => True end.
Proof.
  induction s as [|c s IH]; simpl; [done|]. destruct (f c) eqn:Hc; [done|]. by rewrite Hc.
Qed.

Lemma lstrip_by_suffix f s : ∃ pre, s = pre ++ lstrip_by f s.
Proof.
  induction s as [|c s [pre IH]]; simpl; [by exists []|].
  destruct (f c); [|by exists []]. exists (c :: pre). simpl. by f_equal.
Qed.

Lemma lstrip_by_fixed f s :
  match s with c :: _ => f c = false | [] => True end → lstrip_by f s = s.
Proof. destruct s as [|c s]; simpl; [done|]. by intros ->. Qed.

Lemma strip_by_idemp f s : strip_by f (strip_by f s) = strip_by f s.
Proof.
  unfold strip_by. set (t := lstrip_by f s). set (u := lstrip_by f (reverse t)).
  assert (Hu : lstrip_by f u = u) by apply lstrip_by_fixed, lstrip_by_head.
  assert (Hr : lstrip_by f (reverse u) = reverse u).
  { apply lstrip_by_fixed.
    destruct (lstrip_by_suffix f (reverse t)) as [pre Hpre]. fold u in Hpre.
    destruct u as [|c u' _] using rev_ind; [done|].
    rewrite reverse_snoc.
    assert (Ht : t = c :: reverse u' ++ reverse pre).
    { rewrite <- (reverse_involutive t), Hpre, !reverse_app, reverse_singleton. done. }
    pose proof (lstrip_by_head f s) as Hh. fold t in Hh. by rewrite Ht in Hh. }
  by rewrite Hr, reverse_involutive, Hu.
Qed.

Lemma splitlines_go_nonempty cur s : cur ≠ [] ∨ s ≠ [] → splitlines_go cur s ≠ [].
Proof.
  revert cur. induction s as [|c s IH]; intros cur H; simpl.
  - destruct cur; [by destruct H|done].
  - destruct (is_linebreak c).
    + destruct s; [done|]. by destruct (_ && _).
    + apply IH. by left.
Qed.

Lemma clean_llm_code_unfenced raw_code cleaned :
  _clean_llm_code raw_code = Ok cleaned →
  cleaned = strip raw_code ∧ startswith "```" cleaned = false.
Proof.
  unfold _clean_llm_code. destruct (startswith "```" (strip raw_code)) eqn:Hf.
  - destruct (splitlines (strip raw_code)) as [|l ls] eqn:Hl; [|done].
    exfalso. revert Hl. apply splitlines_go_nonempty. right.
    intros Hs. by rewrite Hs in Hf.
  - intros [= <-]. unfold strip in *. by rewrite strip_by_idemp.
Qed.

Lemma clean_llm_code_fixed raw_code cleaned :
  _clean_llm_code raw_code = Ok cleaned → _clean_llm_code cleaned = Ok cleaned.
Proof.
  intros [-> Hf]%clean_llm_code_unfenced. unfold _clean_llm_code, strip in *.
  by rewrite !strip_by_idemp, Hf.
Qed.

(** X11. [_clean_llm_code] returns exactly when the text, stripped, does
    not start with a code fence, and it then returns the stripped text;
    for every text that does start with a fence it raises. What it
    returns is clean already: cleaning it again returns it unchanged. *)
Theorem clean_llm_code_returns_stripped (raw_code : str) :
  (startswith "```" (strip raw_code) = false
   → _clean_llm_code raw_code = Ok (strip raw_code))
  ∧ (startswith "```" (strip raw_code) = true
     → is_raise (_clean_llm_code raw_code) = true)
  ∧ (∀ cleaned, _clean_llm_code raw_code = Ok cleaned → _clean_llm_code cleaned = Ok cleaned).
Proof.
  assert (Hfence : startswith "```" (strip raw_code) = true
                   → is_raise (_clean_llm_code raw_code) = true).
  { intros Hf. unfold _clean_llm_code. rewrite Hf.
    destruct (splitlines (strip raw_code)) as [|l ls] eqn:Hl; [|done].
    exfalso. revert Hl. apply splitlines_go_nonempty. right.
    intros Hs. by rewrite Hs in Hf. }
  split; [|split; [done|]].
  - intros Hf. unfold _clean_llm_code. rewrite Hf. unfold strip. by rewrite strip_by_idemp.
  - apply clean_llm_code_fixed.
Qed.

Lemma clean_llm_code_returns_stripped_witness :
  _clean_llm_code (text ["  x = 1  "]) = Ok ("x = 1" : str).
Proof.
  apply (proj1 (clean_llm_code_returns_stripped (text ["  x = 1  "]))).
  vm_compute. reflexivity.
Defined.

End CleanCode.
Section Retry.
Import PyStr Worker WorkerLlm Patcher.

Variable _call_llm : nat → str → str → str + str.
Variable ast_parse : str → option str.

Lemma attempts_returns_validated n sent user_prompt system_prompt original_code code sent' :
  attempts _call_llm ast_parse n sent user_prompt system_prompt original_code true
  = (Returned code, sent') →
  should_validate original_code code = true → ast_parse code = None.
Proof.
  revert sent user_prompt. induction n as [|n IH]; intros sent user_prompt; simpl; [done|].
  destruct (_call_llm _ _ _) as [raw|msg]; [|done].
  destruct (_clean_llm_code raw) as [cleaned|e]; [|done].
  destruct (should_validate original_code cleaned) eqn:Hs.
  - destruct (ast_parse cleaned) eqn:Hp; [apply IH|]. by intros [= <- _].
  - intros [= <- _] Hs'. congruence.
Qed.

Lemma attempts_sent n sent user_prompt system_prompt original_code validate_syntax :
  ∃ new,
    (attempts _call_llm ast_parse n sent user_prompt system_prompt original_code
       validate_syntax).2 = sent ++ new
    ∧ length new ≤ n ∧ (0 < n → 0 < length new)
    ∧ (validate_syntax = false → length new ≤ 1)
    ∧ Forall (λ p : str * str, user_prompt `prefix_of` p.1 ∧ p.2 = system_prompt) new.
Proof.
  revert sent user_prompt. induction n as [|n IH]; intros sent user_prompt; simpl.
  { exists []. rewrite app_nil_r. repeat split; simpl; try lia. constructor. }
  assert (Hone : ∃ new, sent ++ [(user_prompt, system_prompt)] = sent ++ new
                        ∧ length new ≤ S n ∧ (0 < S n → 0 < length new)
                        ∧ (validate_syntax = false → length new ≤ 1)
                        ∧ Forall (λ p : str * str,
                                    user_prompt `prefix_of` p.1 ∧ p.2 = system_prompt) new).
  { exists [(user_prompt, system_prompt)]. repeat split; simpl; try lia.
    by repeat constructor. }
  destruct (_call_llm _ _ _) as [raw|msg]; [|exact Hone].
  destruct (_clean_llm_code raw) as [cleaned|e]; [|exact Hone].
  destruct validate_syntax; simpl; [|exact Hone].
  destruct (should_validate original_code cleaned); [|exact Hone].
  destruct (ast_parse cleaned) as [e|]; [|exact Hone].
  destruct (IH (sent ++ [(user_prompt, system_prompt)]) (user_prompt ++ feedback e))
    as (new & -> & Hlen & _ & _ & Hall).
  exists ((user_prompt, system_prompt) :: new). rewrite <- app_assoc.
  split; [done|]. split; [simpl; lia|]. split; [simpl; lia|]. split; [done|].
  constructor; [done|]. eapply Forall_impl; [exact Hall|].
  intros p [Hp ?]. split; [|done]. etrans; [|exact Hp]. by apply prefix_app_r.
Qed.

(** X12. With syntax validation on, a text that [_call_llm_with_retry]
    returns and that is subject to validation (no [<<<<<<<] in it, and
    the original has a [def], or the text starts with [import ] or
    [from ]) has been accepted by [ast.parse]: a draft that was rejected
    is never returned, on any of the three attempts. *)
Theorem retry_returns_accepted_code sent user_prompt system_prompt original_code code sent'
    (Hreturned : _call_llm_with_retry _call_llm ast_parse sent user_prompt system_prompt
                   original_code true = (Returned code, sent'))
    (Hsubject : should_validate original_code code = true) :
  ast_parse code = None.
Proof. exact (attempts_returns_validated 3 _ _ _ _ _ _ Hreturned Hsubject). Qed.

(** X13. A call of [_call_llm_with_retry] sends at least one and at most
    three prompts to the generator, after those sent before it; each has
    the system prompt of the call, and each user prompt starts with the
    user prompt of the call (the error notes are appended, the task is
    never dropped). Without syntax validation exactly one prompt is
    sent. *)
Theorem retry_sends_at_most_three sent user_prompt system_prompt original_code validate_syntax :
  ∃ new,
    (_call_llm_with_retry _call_llm ast_parse sent user_prompt system_prompt original_code
       validate_syntax).2 = sent ++ new
    ∧ 1 ≤ length new ≤ 3
    ∧ (validate_syntax = false → length new = 1)
    ∧ Forall (λ p : str * str, user_prompt `prefix_of` p.1 ∧ p.2 = system_prompt) new.
Proof.
  destruct (attempts_sent 3 sent user_prompt system_prompt original_code validate_syntax)
    as (new & Hnew & Hle & Hpos & Hone & Hall).
  exists new. split; [exact Hnew|]. specialize (Hpos ltac:(lia)).
  split; [lia|]. split; [|done]. intros Hv. specialize (Hone Hv). lia.
Qed.

(** X14. When no block of the patch the generator returns applies to the
    file, [_patch_large_file] raises the [ValueError] of the patch engine
    after its one call: the fallback to a full rewrite is taken for a
    patched text that does not parse, not for a patch that does not
    apply. *)
Theorem patch_large_file_unapplied_raises sent patch_prompt rewrite_prompt original patch
    (Hreply : _call_llm (length sent) patch_prompt "Output ONLY SEARCH/REPLACE blocks."
              = inl patch)
    (Hblocks : patch_blocks patch ≠ [])
    (Hnone : Forall (λ b, applies original b = false) (patch_blocks patch)) :
  _patch_large_file _call_llm ast_parse sent patch_prompt rewrite_prompt original
  = (Raised (ValueError "Failed to apply patches: No blocks matched."),
     sent ++ [(patch_prompt, "Output ONLY SEARCH/REPLACE blocks." : str)]).
Proof.
  unfold _patch_large_file. cbv zeta. rewrite Hreply.
  unfold apply_patches_robust, run_blocks.
  apply (step_none_applied (PatchState original 0 [])) in Hnone. cbn [applied_count] in Hnone.
  rewrite Hnone. destruct (patch_blocks patch); [done|]. reflexivity.
Qed.

(** X15. A reply that holds no SEARCH marker is no patch: the engine
    returns the file as it is, and [_patch_large_file] returns the
    original text unchanged, without an error and without a rewrite,
    when the original parses. *)
Theorem patch_large_file_no_blocks_keeps_original sent patch_prompt rewrite_prompt original patch
    (Hreply : _call_llm (length sent) patch_prompt "Output ONLY SEARCH/REPLACE blocks."
              = inl patch)
    (Hnomarker : contains SEARCH_MARKER (unfenced patch) = false)
    (Hparses : ast_parse original = None) :
  apply_patches_robust original patch = Ok (original, [])
  ∧ _patch_large_file _call_llm ast_parse sent patch_prompt rewrite_prompt original
    = (Returned original, sent ++ [(patch_prompt, "Output ONLY SEARCH/REPLACE blocks." : str)]).
Proof.
  assert (Hb : patch_blocks patch = []).
  { unfold patch_blocks, split. unfold contains in Hnomarker.
    destruct (find SEARCH_MARKER (unfenced patch)) as [i|] eqn:Hfind.
    - by rewrite bool_decide_eq_true_2 in Hnomarker.
    - destruct (length (unfenced patch)); simpl; by rewrite ?Hfind. }
  assert (Hp : apply_patches_robust original patch = Ok (original, [])).
  { unfold apply_patches_robust, run_blocks. by rewrite Hb. }
  split; [done|]. unfold _patch_large_file. cbv zeta. rewrite Hreply, Hp.
  unfold _validate_syntax. by rewrite Hparses.
Qed.

(** X16. For an original that has a [def], a text that [_patch_large_file]
    returns and that holds no [<<<<<<<] has been accepted by
    [ast.parse], whether it comes from the patch or from the rewrite
    that replaces a patched text with a syntax error. *)
Theorem patch_large_file_returns_accepted_code sent patch_prompt rewrite_prompt original
    code sent'
    (Hreturned : _patch_large_file _call_llm ast_parse sent patch_prompt rewrite_prompt original
                 = (Returned code, sent'))
    (Hdef : contains "def " original = true)
    (Hplain : contains "<<<<<<<" code = false) :
  ast_parse code = None.
Proof.
  revert Hreturned. unfold _patch_large_file. cbv zeta.
  destruct (_call_llm _ _ _) as [patch|msg]; [|done].
  destruct (apply_patches_robust original patch) as [[patched log]|e]; [|done].
  unfold _validate_syntax. destruct (ast_parse patched) eqn:Hp.
  - intros Hr. apply (attempts_returns_validated 3 _ _ _ _ _ _ Hr).
    unfold should_validate, looks_like_python. rewrite Hplain.
    destruct original as [|c o]; [done|]. by rewrite Hdef.
  - by intros [= <- _].
Qed.

End Retry.
Section RetryExamples.
Import PyStr Worker WorkerLlm WorkerLlmExamples Patcher.

Lemma retry_returns_accepted_code_witness :
  accepts_import_os "import os" = None.
Proof.
  apply (retry_returns_accepted_code second_draft_right accepts_import_os
           [] "task" "system" None "import os"
           [("task" : str, "system" : str);
            ("task" ++ feedback "invalid syntax", "system" : str)]).
  - vm_compute. reflexivity.
  - vm_compute. reflexivity.
Defined.

Lemma retry_sends_at_most_three_witness :
  ∃ new,
    (_call_llm_with_retry second_draft_right accepts_import_os [] "task" "system" None
       false).2 = [] ++ new
    ∧ 1 ≤ length new ≤ 3
    ∧ (false = false → length new = 1)
    ∧ Forall (λ p : str * str, ("task" : str) `prefix_of` p.1 ∧ p.2 = ("system" : str)) new.
Proof.
  exact (retry_sends_at_most_three second_draft_right accepts_import_os
           [] "task" "system" None false).
Defined.

Lemma patch_large_file_unapplied_raises_witness :
  _patch_large_file (one_block "z = 0" "z = 1") accepts_import_os [] "patch" "rewrite"
    (text ["x = 1"])
  = (Raised (ValueError "Failed to apply patches: No blocks matched."),
     [] ++ [("patch" : str, "Output ONLY SEARCH/REPLACE blocks." : str)]).
Proof.
  apply (patch_large_file_unapplied_raises (one_block "z = 0" "z = 1") accepts_import_os
           [] "patch" "rewrite" (text ["x = 1"])
           (text ["<<<<<<< SEARCH"; "z = 0"; "======="; "z = 1"; ">>>>>>> REPLACE"])).
  - reflexivity.
  - vm_compute. discriminate.
  - replace (patch_blocks (text ["<<<<<<< SEARCH"; "z = 0"; "======="; "z = 1"; ">>>>>>> REPLACE"]))
      with [text ["z = 0"; "======="; "z = 1"; ">>>>>>> REPLACE"]]
      by (vm_compute; reflexivity).
    apply Forall_cons_2; [vm_compute; reflexivity | apply Forall_nil_2].
Defined.

Lemma patch_large_file_no_blocks_keeps_original_witness :
  apply_patches_robust "import os" "Nothing to change." = Ok ("import os" : str, [])
  ∧ _patch_large_file (λ _ _ _, inl ("Nothing to change." : str)) accepts_import_os
      [] "patch" "rewrite" "import os"
    = (Returned ("import os" : str),
       [] ++ [("patch" : str, "Output ONLY SEARCH/REPLACE blocks." : str)]).
Proof.
  apply (patch_large_file_no_blocks_keeps_original
           (λ _ _ _, inl ("Nothing to change." : str)) accepts_import_os
           [] "patch" "rewrite" "import os" "Nothing to change.").
  - reflexivity.
  - vm_compute. reflexivity.
  - vm_compute. reflexivity.
Defined.

Lemma patch_large_file_returns_accepted_code_witness :
  accepts_only (text ["def f(): return 2"]) (text ["def f(): return 2"]) = None.
Proof.
  apply (patch_large_file_returns_accepted_code
           (one_block "def f(): return 1" "def f(): return 2")
           (accepts_only (text ["def f(): return 2"]))
           [] "patch" "rewrite" (text ["def f(): return 1"]) (text ["def f(): return 2"])
           [("patch" : str, "Output ONLY SEARCH/REPLACE blocks." : str)]).
  - vm_compute. reflexivity.
  - vm_compute. reflexivity.
  - vm_compute. reflexivity.
Defined.

End RetryExamples.

Section ExtractionMapProperties.
Import PyStr Worker ExtractionMap.

Lemma elem_of_append_new l sym x : x ∈ append_new l sym ↔ x ∈ l ∨ x = sym.
Proof.
  unfold append_new. case_bool_decide; [|set_solver]. split; [by left|].
  by intros [?| ->].
Qed.

Lemma elem_of_foldl_append_new l syms x :
  x ∈ foldl append_new l syms ↔ x ∈ l ∨ x ∈ syms.
Proof.
  revert l. induction syms as [|s syms IH]; intros l; simpl; [set_solver|].
  rewrite IH, elem_of_append_new. set_solver.
Qed.

Lemma NoDup_append_new l sym : NoDup l → NoDup (append_new l sym).
Proof.
  intros Hl. unfold append_new. case_bool_decide; [done|].
  apply NoDup_app. split; [done|]. split; [|apply NoDup_singleton].
  intros x Hx ->%list_elem_of_singleton. done.
Qed.

Lemma NoDup_foldl_append_new l syms : NoDup l → NoDup (foldl append_new l syms).
Proof.
  revert l. induction syms as [|s syms IH]; intros l Hl; simpl; [done|].
  by apply IH, NoDup_append_new.
Qed.

Lemma append_new_present l sym : sym ∈ l → append_new l sym = l.
Proof. intros H. unfold append_new. by rewrite bool_decide_eq_true_2. Qed.

Lemma foldl_append_new_present l syms :
  (∀ x, x ∈ syms → x ∈ l) → foldl append_new l syms = l.
Proof.
  revert l. induction syms as [|s syms IH]; intros l H; simpl; [done|].
  rewrite append_new_present by (apply H; left). apply IH. intros x Hx. apply H. by right.
Qed.

(** X17. Once a file has been created out of [source_file], a later
    [MODIFY] of [source_file] whose description speaks of removing,
    deleting or cleaning up and which names no entity is handed to the
    structural removal with the mapped symbols: every symbol found in
    the created file is among the names removed, together with those
    mapped for that file before, and nothing else. *)
Theorem moved_symbols_are_removed project extraction_map original source_file target
    created_symbols ins
    (Haction : upper (action ins) = "MODIFY")
    (Hdesc : is_delete (description ins) = true)
    (Htarget : target_file ins = source_file)
    (Hnone : detected_entities ins = [])
    (Hcreated : created_symbols ≠ []) :
  ∃ entities,
    _process_change project original ins
      (map_extraction extraction_map source_file target created_symbols)
    = CstRemoval entities
    ∧ ∀ x, x ∈ entities ↔ x ∈ created_symbols ∨ x ∈ mapped_symbols extraction_map source_file.
Proof.
  set (old := mapped_symbols extraction_map source_file).
  assert (Hent : deletion_entities ins (map_extraction extraction_map source_file target
                                          created_symbols)
                 = foldl append_new old created_symbols ∧ foldl append_new old created_symbols ≠ []).
  { assert (Hne : foldl append_new old created_symbols ≠ []).
    { destruct created_symbols as [|s rest]; [done|]. intros Hnil.
      assert (Hs : s ∈ foldl append_new old (s :: rest))
        by (apply elem_of_foldl_append_new; right; left).
      rewrite Hnil in Hs. by apply elem_of_nil in Hs. }
    split; [|done]. unfold deletion_entities, map_extraction.
    rewrite Htarget, lookup_insert, Hnone. rewrite decide_True by done. cbn [symbols].
    assert (Hold : symbols (default (Extraction [] []) (extraction_map !! source_file)) = old).
    { unfold old, mapped_symbols. by destruct (extraction_map !! source_file). }
    rewrite Hold. rewrite bool_decide_eq_true_2 by done.
    by rewrite (bool_decide_eq_false_2 _ Hne). }
  destruct Hent as [Hent Hne].
  exists (foldl append_new old created_symbols). split.
  - unfold _process_change. rewrite Haction, Hdesc, Hent.
    rewrite (bool_decide_eq_false_2 _ Hne). reflexivity.
  - intros x. rewrite elem_of_foldl_append_new. tauto.
Qed.

Lemma moved_symbols_are_removed_witness :
  ∃ entities,
    _process_change (single_file "core/big.py" "") ""
      (Instruction "modify" "core/big.py" None "Remove the moved helpers" [])
      (map_extraction ∅ "core/big.py" "core/helpers.py" ["parse" : str; "render" : str])
    = CstRemoval entities
    ∧ ∀ x, x ∈ entities
           ↔ x ∈ ["parse" : str; "render" : str] ∨ x ∈ mapped_symbols ∅ "core/big.py".
Proof.
  apply (moved_symbols_are_removed (single_file "core/big.py" "") ∅ "" "core/big.py"
           "core/helpers.py"
           ["parse" : str; "render" : str]
           (Instruction "modify" "core/big.py" None "Remove the moved helpers" [])).
  - vm_compute. reflexivity.
  - vm_compute. reflexivity.
  - reflexivity.
  - reflexivity.
  - discriminate.
Defined.

(** X18. The mapping update keeps the Extraction Map free of duplicates
    and touches the entry of the source file only; recording the same
    extraction a second time changes nothing. *)
Theorem map_extraction_no_duplicates extraction_map source_file target created_symbols
    (Hnodup : ∀ file e, extraction_map !! file = Some e → NoDup (moved_to e) ∧ NoDup (symbols e)) :
  let updated := map_extraction extraction_map source_file target created_symbols in
  (∀ file e, updated !! file = Some e → NoDup (moved_to e) ∧ NoDup (symbols e))
  ∧ (∀ file, file ≠ source_file → updated !! file = extraction_map !! file)
  ∧ map_extraction updated source_file target created_symbols = updated.
Proof.
  intros updated. unfold updated, map_extraction.
  set (entry := default (Extraction [] []) (extraction_map !! source_file)).
  assert (Hentry : NoDup (moved_to entry) ∧ NoDup (symbols entry)).
  { unfold entry. destruct (extraction_map !! source_file) as [e|] eqn:He; simpl.
    - by apply (Hnodup source_file).
    - split; apply NoDup_nil_2. }
  split; [|split].
  - intros file e [[<- <-] | [_ He]]%lookup_insert_Some; [|by apply (Hnodup file)].
    simpl. split; [apply NoDup_append_new | apply NoDup_foldl_append_new]; apply Hentry.
  - intros file Hfile. by rewrite lookup_insert_ne.
  - rewrite lookup_insert. rewrite decide_True by done. cbn [default moved_to symbols].
    rewrite insert_insert. rewrite decide_True by done. f_equal. f_equal.
    + apply append_new_present, elem_of_append_new. by right.
    + apply foldl_append_new_present. intros x Hx. apply elem_of_foldl_append_new. by right.
Qed.

Lemma map_extraction_no_duplicates_witness :
  let updated := map_extraction ∅ "core/big.py" "core/helpers.py" ["parse" : str; "render" : str] in
  (∀ file e, updated !! file = Some e → NoDup (moved_to e) ∧ NoDup (symbols e))
  ∧ (∀ file, file ≠ ("core/big.py" : str) → updated !! file = (∅ : gmap str extraction) !! file)
  ∧ map_extraction updated "core/big.py" "core/helpers.py" ["parse" : str; "render" : str]
    = updated.
Proof.
  apply (map_extraction_no_duplicates ∅ "core/big.py" "core/helpers.py"
           ["parse" : str; "render" : str]).
  intros file e He. by apply lookup_empty_Some in He.
Defined.

End ExtractionMapProperties.

Section ImportFormatProperties.
Import PyStr ImportFormat.

Lemma str_ltb_irrefl a : str_ltb a a = false.
Proof. induction a as [|x a IH]; simpl; [done|]. by rewrite Nat.ltb_irrefl. Qed.

Lemma nat_of_ascii_inj x y : nat_of_ascii x = nat_of_ascii y → x = y.
Proof.
  intros H. rewrite <- (ascii_nat_embedding x), <- (ascii_nat_embedding y). by rewrite H.
Qed.

Lemma str_ltb_total a b : str_ltb a b = false → str_ltb b a = false → a = b.
Proof.
  revert b. induction a as [|x a IH]; intros [|y b]; simpl; try done.
  destruct (nat_of_ascii x <? nat_of_ascii y) eqn:Hxy; [done|].
  destruct (nat_of_ascii y <? nat_of_ascii x) eqn:Hyx; [done|].
  intros Hab Hba. apply Nat.ltb_ge in Hxy, Hyx.
  f_equal; [apply nat_of_ascii_inj; lia | by apply IH].
Qed.

Lemma str_ltb_trans a b c : str_ltb a b = true → str_ltb b c = true → str_ltb a c = true.
Proof.
  revert b c. induction a as [|x a IH]; intros [|y b] [|z c]; simpl; try done.
  destruct (nat_of_ascii x <? nat_of_ascii y) eqn:Hxy;
    destruct (nat_of_ascii y <? nat_of_ascii z) eqn:Hyz;
    destruct (nat_of_ascii y <? nat_of_ascii x) eqn:Hyx;
    destruct (nat_of_ascii z <? nat_of_ascii y) eqn:Hzy;
    destruct (nat_of_ascii x <? nat_of_ascii z) eqn:Hxz;
    destruct (nat_of_ascii z <? nat_of_ascii x) eqn:Hzx;
    try done;
    rewrite ?Nat.ltb_lt, ?Nat.ltb_ge in *; try lia.
  apply IH.
Qed.

Lemma elem_of_insert_sorted e l x : x ∈ insert_sorted e l ↔ x = e ∨ x ∈ l.
Proof.
  induction l as [|y l IH]; simpl; [set_solver|].
  destruct (str_ltb e y) eqn:Hey; [set_solver|].
  destruct (str_ltb y e) eqn:Hye; [set_solver|].
  rewrite (str_ltb_total _ _ Hey Hye). set_solver.
Qed.

Lemma insert_sorted_increasing e l : increasing l → increasing (insert_sorted e l).
Proof.
  induction l as [|y l IH]; cbn [increasing insert_sorted]; [by repeat constructor|].
  intros [Hy Hl]. destruct (str_ltb e y) eqn:Hey.
  - cbn [increasing]. split; [|done]. constructor; [done|].
    eapply Forall_impl; [exact Hy|]. intros z Hz. by eapply str_ltb_trans.
  - destruct (str_ltb y e) eqn:Hye; cbn [increasing]; [|done].
    split; [|by apply IH]. apply Forall_forall.
    intros z [->|Hz]%elem_of_insert_sorted; [done|].
    by apply (proj1 (Forall_forall _ _) Hy).
Qed.

Lemma sorted_set_increasing entities : increasing (sorted_set entities).
Proof.
  induction entities as [|e l IH]; simpl; [done|]. by apply insert_sorted_increasing.
Qed.

Lemma elem_of_sorted_set entities x : x ∈ sorted_set entities ↔ x ∈ entities.
Proof.
  induction entities as [|e l IH]; simpl; [done|]. rewrite elem_of_insert_sorted, IH. set_solver.
Qed.

Lemma increasing_unique l1 l2 :
  increasing l1 → increasing l2 → (∀ x, x ∈ l1 ↔ x ∈ l2) → l1 = l2.
Proof.
  revert l2. induction l1 as [|a l1 IH]; intros l2 H1 H2 Hmem.
  - destruct l2 as [|b l2]; [done|]. specialize (Hmem b). set_solver.
  - destruct l2 as [|b l2]; [specialize (Hmem a); set_solver|].
    destruct H1 as [Ha Hl1], H2 as [Hb Hl2].
    rewrite Forall_forall in Ha, Hb.
    assert (a = b) as <-.
    { apply str_ltb_total.
      - assert (Hin : a ∈ b :: l2) by (apply Hmem; left).
        apply elem_of_cons in Hin as [->|Hin]; [apply str_ltb_irrefl|].
        destruct (str_ltb a b) eqn:Hab; [|done].
        pose proof (Hb a Hin) as Hba. pose proof (str_ltb_trans _ _ _ Hab Hba) as Haa.
        by rewrite str_ltb_irrefl in Haa.
      - assert (Hin : b ∈ a :: l1) by (apply Hmem; left).
        apply elem_of_cons in Hin as [->|Hin]; [apply str_ltb_irrefl|].
        destruct (str_ltb b a) eqn:Hba; [|done].
        pose proof (Ha b Hin) as Hab. pose proof (str_ltb_trans _ _ _ Hba Hab) as Hbb.
        by rewrite str_ltb_irrefl in Hbb. }
    f_equal. apply IH; [done..|]. intros x. split; intros Hx.
    + assert (Hin : x ∈ a :: l2) by (apply Hmem; by right).
      apply elem_of_cons in Hin as [->|?]; [|done].
      pose proof (Ha a Hx) as Haa. by rewrite str_ltb_irrefl in Haa.
    + assert (Hin : x ∈ a :: l1) by (apply Hmem; by right).
      apply elem_of_cons in Hin as [->|?]; [|done].
      pose proof (Hb a Hx) as Haa. by rewrite str_ltb_irrefl in Haa.
Qed.

(** X19. The import statement depends on the set of the entities only:
    two lists that name the same entities, in any order and with any
    repeats, are formatted to the same text. *)
Theorem format_import_ignores_order_and_repeats module entities1 entities2
    (Hsame : ∀ x, x ∈ entities1 ↔ x ∈ entities2) :
  _format_import module entities1 = _format_import module entities2.
Proof.
  assert (Hs : sorted_set entities1 = sorted_set entities2).
  { apply increasing_unique; [apply sorted_set_increasing..|].
    intros x. by rewrite !elem_of_sorted_set. }
  unfold _format_import. rewrite Hs.
  destruct entities1 as [|a l1], entities2 as [|b l2]; try done.
  - specialize (Hsame b). set_solver.
  - specialize (Hsame a). set_solver.
Qed.

Lemma format_import_ignores_order_and_repeats_witness :
  _format_import ".helpers" ["render" : str; "parse" : str; "render" : str]
  = _format_import ".helpers" ["parse" : str; "render" : str].
Proof.
  apply (format_import_ignores_order_and_repeats ".helpers"
           ["render" : str; "parse" : str; "render" : str] ["parse" : str; "render" : str]).
  intros x. rewrite !elem_of_cons. set_solver.
Defined.

End ImportFormatProperties.
Section RelativeImport.
Import PyStr ImportFormat.

Lemma common_len_app c s t k :
  common_len (c ++ s) (c ++ t) (length c + k) = length c + common_len s t k.
Proof.
  induction c as [|a c IH]; simpl; [done|]. by rewrite bool_decide_eq_true_2, IH.
Qed.

Lemma join_snoc sep l x :
  join sep (l ++ [x]) = match l with [] => x | _ => join sep l ++ sep ++ x end.
Proof.
  induction l as [|a l IH]; simpl; [done|]. rewrite IH.
  destruct l as [|b l]; simpl; [done|]. by rewrite <- !app_assoc.
Qed.

Lemma removelast_snoc {A : Type} (l : list A) x : removelast (l ++ [x]) = l.
Proof. rewrite removelast_app by done. simpl. by rewrite app_nil_r. Qed.

(** X20. The module named by the import is the target relative to the
    directory of the source file. When the directories of the two files
    share the path [common] and fork after it, [up] being what is left of
    the source directory and [down] of the target directory, the module
    is one dot, one more dot per directory of [up], then the directories
    of [down] and the target's file name without [.py], joined by dots. *)
Theorem import_is_relative_to_source_directory entities source_file target_file
    (common up down : list str) (src_name tgt_name : str)
    (Hsrc : split_char "/" (replace "\" "/" source_file) = common ++ up ++ [src_name])
    (Htgt : split_char "/" (replace "\" "/" target_file) = common ++ down ++ [tgt_name])
    (Hfork : ∀ a b, head up = Some a → head down = Some b → a ≠ b) :
  build_import_statement_code entities source_file target_file
  = _format_import
      (concat (replicate (S (length up)) ("." : str))
       ++ join "." (down ++ [if endswith ".py" tgt_name
                             then take (length tgt_name - 3) tgt_name else tgt_name]))
      entities.
Proof.
  unfold build_import_statement_code. rewrite Hsrc, Htgt. cbv zeta.
  rewrite !app_assoc, !removelast_snoc, last_snoc. cbn [default].
  rewrite <- !app_assoc.
  assert (Hlen : length (common ++ up) `min` (length (common ++ down ++ [tgt_name]) - 1)
                 = length common + (length up `min` length down)).
  { rewrite !length_app. simpl. lia. }
  rewrite Hlen, common_len_app.
  assert (Hzero : common_len up (down ++ [tgt_name]) (length up `min` length down) = 0).
  { destruct up as [|a up']; [done|]. destruct down as [|b down']; [done|]. simpl.
    rewrite bool_decide_eq_false_2; [done|]. by apply Hfork. }
  rewrite Hzero, Nat.add_0_r, length_app, drop_app_length.
  replace (length common + length up - length common) with (length up) by lia.
  f_equal. rewrite join_snoc.
  assert (Hdots : (if length up =? 0 then ("." : str)
                   else concat (replicate (length up + 1) ("." : str)))
                  = concat (replicate (S (length up)) ("." : str))).
  { destruct (length up) as [|n] eqn:Hup; [done|]. cbn [Nat.eqb]. by rewrite Nat.add_1_r. }
  rewrite Hdots. destruct down as [|b down']; [done|]. by rewrite <- !app_assoc.
Qed.

Lemma import_is_relative_to_source_directory_witness :
  build_import_statement_code ["parse" : str] "core/worker/utils.py" "core\planner\text\parse.py"
  = _format_import
      (concat (replicate 2 ("." : str)) ++ join "." (["planner" : str; "text" : str] ++ ["parse" : str]))
      ["parse" : str].
Proof.
  apply (import_is_relative_to_source_directory ["parse" : str]
           "core/worker/utils.py" "core\planner\text\parse.py"
           ["core" : str] ["worker" : str] ["planner" : str; "text" : str] "utils.py" "parse.py").
  - vm_compute. reflexivity.
  - vm_compute. reflexivity.
  - intros a b [= <-] [= <-]. discriminate.
Defined.

End RelativeImport.

Section ArtifactNames.
Import PyStr Artifacts.

Lemma rfind_char_split c s i :
  rfind [c] s = Some i → s = take i s ++ c :: drop (S i) s.
Proof.
  revert i. induction s as [|a s IH]; intros i; simpl; [done|].
  destruct (rfind [c] s) as [j|] eqn:Hj.
  - intros [= <-]. simpl. f_equal. by apply IH.
  - destruct (Ascii.eqb c a) eqn:Hca; [|done]. intros [= <-].
    apply Ascii.eqb_eq in Hca. by subst.
Qed.

Lemma temp_filename_prefixed filename loop_count :
  temp_filename filename loop_count = "loop_" ++ decimal loop_count ++ "_" ++ filename.
Proof.
  unfold temp_filename, rsplit1. destruct (rfind ["."%char] filename) as [i|] eqn:Hi; [|done].
  apply rfind_char_split in Hi.
  assert (H : take i filename ++ "." ++ drop (S i) filename = filename) by exact (eq_sym Hi).
  by rewrite H.
Qed.

Lemma uint_chars d c :
  c ∈ list_ascii_of_string (DecimalString.NilEmpty.string_of_uint d) →
  c ∈ ("-0123456789" : str).
Proof.
  induction d; simpl; try (intros [->|?]%elem_of_cons; [set_solver | by apply IHd]).
  by intros ?%elem_of_nil.
Qed.

Lemma decimal_digits n c : c ∈ decimal n → c ∈ ("-0123456789" : str).
Proof.
  unfold decimal. destruct (Z.to_int n) as [d|d]; simpl.
  - exact (uint_chars d c).
  - intros [->|?]%elem_of_cons; [set_solver | by apply (uint_chars d)].
Qed.

Lemma decimal_chars n c : c ∈ decimal n → c ≠ "_"%char.
Proof. intros H%decimal_digits ->. simpl in H. set_solver. Qed.

Lemma list_ascii_of_string_inj s1 s2 :
  list_ascii_of_string s1 = list_ascii_of_string s2 → s1 = s2.
Proof.
  intros H. rewrite <- (string_of_list_ascii_of_string s1), <- (string_of_list_ascii_of_string s2).
  by rewrite H.
Qed.

Lemma decimal_inj n m : decimal n = decimal m → n = m.
Proof.
  intros H%list_ascii_of_string_inj. apply DecimalZ.to_int_inj.
  pose proof (DecimalString.NilEmpty.isi (Z.to_int n)) as Hn.
  pose proof (DecimalString.NilEmpty.isi (Z.to_int m)) as Hm.
  rewrite H in Hn. congruence.
Qed.

(** Two texts cut at their first underscore. *)
Lemma cut_at_underscore (a b x y : str) :
  (∀ c, c ∈ a → c ≠ "_"%char) → (∀ c, c ∈ b → c ≠ "_"%char) →
  a ++ "_" ++ x = b ++ "_" ++ y → a = b ∧ x = y.
Proof.
  revert b. induction a as [|c a IH]; intros [|d b] Ha Hb; simpl.
  - by intros [= ->].
  - intros [= <- _]. exfalso. by apply (Hb "_"%char); [left|].
  - intros [= -> _]. exfalso. by apply (Ha "_"%char); [left|].
  - intros [= -> H]. apply IH in H as [-> ->]; [done| |].
    + intros c Hc. apply Ha. by right.
    + intros c Hc. apply Hb. by right.
Qed.

Lemma loop_prefix_iff n m rest :
  startswith ("loop_" ++ decimal n ++ "_") ("loop_" ++ decimal m ++ "_" ++ rest) = true ↔ n = m.
Proof.
  split.
  - intros [r Hr]%startswith_spec. rewrite <- !app_assoc in Hr.
    apply app_inv_head in Hr.
    symmetry in Hr. apply cut_at_underscore in Hr as [Hd _]; try apply decimal_chars.
    by apply decimal_inj.
  - intros ->. apply startswith_spec. exists rest. by rewrite <- !app_assoc.
Qed.

Lemma temp_filename_inj f1 n1 f2 n2 :
  temp_filename f1 n1 = temp_filename f2 n2 → f1 = f2 ∧ n1 = n2.
Proof.
  rewrite !temp_filename_prefixed. intros H. apply app_inv_head in H.
  apply cut_at_underscore in H as [Hd ->]; try apply decimal_chars.
  split; [done | by apply decimal_inj].
Qed.

(** X21. An artifact saved under a file name that can stand in the
    directory (no slash, no null character, at most 255 bytes with its
    prefix) is kept as [loop_<n>_<filename>] in the artifacts directory,
    whether the name has an extension or not. Loading the same name for
    the same loop gives the content back as text mode reads it: with
    every carriage return, alone or before a newline, turned into a
    newline, so unchanged when the content has no carriage return. The
    artifact of no other file name or loop is touched: distinct pairs of
    name and loop never share a file. *)
Theorem save_then_load_temp_artifact dir content filename loop_count
    (Haccepted : name_accepted ("loop_" ++ decimal loop_count ++ "_" ++ filename) = true) :
  ∃ dir',
    save_temp_artifact dir content filename loop_count
    = Some (".temp_artifacts/loop_" ++ decimal loop_count ++ "_" ++ filename, dir')
    ∧ load_temp_artifact dir' filename loop_count = Some (universal_newlines content)
    ∧ (CR ∉ content → load_temp_artifact dir' filename loop_count = Some content)
    ∧ ∀ filename' loop_count',
        (filename', loop_count') ≠ (filename, loop_count) →
        load_temp_artifact dir' filename' loop_count'
        = load_temp_artifact dir filename' loop_count'.
Proof.
  exists (<[temp_filename filename loop_count := content]> dir).
  assert (Hok : name_accepted (temp_filename filename loop_count) = true)
    by by rewrite temp_filename_prefixed.
  assert (Hload : load_temp_artifact (<[temp_filename filename loop_count := content]> dir)
                    filename loop_count = Some (universal_newlines content)).
  { unfold load_temp_artifact. cbv zeta. rewrite Hok.
    by rewrite lookup_insert, decide_True. }
  split; [|split; [exact Hload|split]].
  - unfold save_temp_artifact. cbv zeta. rewrite Hok. by rewrite temp_filename_prefixed.
  - intros Hcr. rewrite Hload. f_equal.
    clear -Hcr. induction content as [|c content IH]; [done|].
    apply not_elem_of_cons in Hcr as [Hc Hcr]. cbn [universal_newlines].
    rewrite (proj2 (Ascii.eqb_neq c CR)) by done. f_equal. by apply IH.
  - intros filename' loop_count' Hother. unfold load_temp_artifact. cbv zeta.
    destruct (name_accepted (temp_filename filename' loop_count')); [|done].
    rewrite lookup_insert_ne; [done|].
    intros [-> ->]%temp_filename_inj. done.
Qed.

Lemma save_then_load_temp_artifact_witness :
  ∃ dir',
    save_temp_artifact ∅ "x = 1" "utils.py" 2
    = Some (".temp_artifacts/loop_" ++ decimal 2 ++ "_" ++ "utils.py", dir')
    ∧ load_temp_artifact dir' "utils.py" 2 = Some (universal_newlines "x = 1")
    ∧ (CR ∉ ("x = 1" : str) → load_temp_artifact dir' "utils.py" 2 = Some ("x = 1" : str))
    ∧ ∀ filename' loop_count',
        (filename', loop_count') ≠ ("utils.py" : str, 2%Z) →
        load_temp_artifact dir' filename' loop_count'
        = load_temp_artifact ∅ filename' loop_count'.
Proof.
  apply (save_then_load_temp_artifact ∅ "x = 1" "utils.py" 2).
  vm_compute. reflexivity.
Defined.

(** X22. The clean-up at the start of loop [current_loop] removes the
    artifacts of loop [current_loop - 1] and of no other loop, whatever
    their file names: what was saved for the current loop or for an
    earlier one is still loaded afterwards. In the first loop, and for a
    loop number below 1, nothing is removed. *)
Theorem cleanup_removes_previous_loop_only dir current_loop filename loop_count :
  load_temp_artifact (cleanup_previous_loop_artifacts dir current_loop) filename loop_count
  = if bool_decide (1 < current_loop ∧ loop_count = current_loop - 1)%Z then None
    else load_temp_artifact dir filename loop_count.
Proof.
  unfold cleanup_previous_loop_artifacts, load_temp_artifact. cbv zeta.
  destruct (name_accepted (temp_filename filename loop_count)) eqn:Hs;
    [|by destruct (bool_decide ((1 < current_loop)%Z ∧ loop_count = (current_loop - 1)%Z))].
  destruct (1 <? current_loop)%Z eqn:Hc.
  - apply Z.ltb_lt in Hc. unfold cleanup_loop_artifacts.
    destruct (decide ((1 < current_loop)%Z ∧ loop_count = (current_loop - 1)%Z)) as [Hprev|Hprev];
      [rewrite (bool_decide_eq_true_2 _ Hprev) | rewrite (bool_decide_eq_false_2 _ Hprev)].
    + destruct Hprev as [_ ->].
      assert (Hnone : filter (λ entry : str * str,
                               startswith ("loop_" ++ decimal (current_loop - 1) ++ "_") entry.1
                               = false) dir
                      !! temp_filename filename (current_loop - 1) = None).
      { apply map_lookup_filter_None. right. intros content _.
        cbn [fst]. rewrite temp_filename_prefixed.
        rewrite (proj2 (loop_prefix_iff (current_loop - 1) (current_loop - 1) filename) eq_refl).
        done. }
      by rewrite Hnone.
    + f_equal. apply option_eq. intros content. rewrite map_lookup_filter_Some. cbn [fst].
      split; [by intros [? _]|]. intros Hl. split; [done|].
      rewrite temp_filename_prefixed.
      destruct (startswith _ _) eqn:Hp; [|done].
      apply loop_prefix_iff in Hp. exfalso. apply Hprev. split; [done|]. by symmetry.
  - apply Z.ltb_ge in Hc. rewrite bool_decide_eq_false_2; [done|]. lia.
Qed.

End ArtifactNames.

Section SafetyNames.
Import PyStr Safety.

Lemma safe_task_chars limit task c :
  c ∈ safe_task limit task → isalnum c = true ∨ c = "_"%char.
Proof.
  unfold safe_task. intros Hc.
  assert (Hm : c ∈ map (λ c, if isalnum c then c else "_"%char) task).
  { revert Hc. apply subseteq_take. }
  apply list_elem_of_fmap in Hm as (a & -> & _).
  destruct (isalnum a) eqn:Ha; [by left | by right].
Qed.

(** X23. The part of a history file name that comes from the task holds
    letters, digits and underscores only, whatever the task name: no
    slash, backslash or dot, so the file stays in the history directory.
    It is at most 30 characters long for an archived plan, where an empty
    task name gives [plan], and at most 50 for an operation log. *)
Theorem history_names_are_plain timestamp task :
  (∃ safe, archive_name timestamp task = timestamp ++ "_" ++ safe ++ ".json"
           ∧ 1 ≤ length safe ≤ 30
           ∧ ∀ c, c ∈ safe → (isalnum c = true ∨ c = "_"%char)
                             ∧ c ≠ "/"%char ∧ c ≠ "\"%char ∧ c ≠ "."%char)
  ∧ (∃ safe, log_name timestamp task = timestamp ++ "_" ++ safe ++ ".json"
             ∧ length safe ≤ 50
             ∧ ∀ c, c ∈ safe → (isalnum c = true ∨ c = "_"%char)
                               ∧ c ≠ "/"%char ∧ c ≠ "\"%char ∧ c ≠ "."%char).
Proof.
  assert (Hplain : ∀ c, isalnum c = true ∨ c = "_"%char →
                        c ≠ "/"%char ∧ c ≠ "\"%char ∧ c ≠ "."%char).
  { intros c [Hc| ->]; [|done]. repeat split; intros ->; by vm_compute in Hc. }
  assert (Hlen : ∀ n, length (safe_task n task) ≤ n).
  { intros n. unfold safe_task. rewrite length_take. lia. }
  split.
  - unfold archive_name. cbv zeta. pose proof (Hlen 30) as H30.
    destruct (safe_task 30 task) as [|a l] eqn:Hs.
    + exists ("plan" : str). split; [done|]. split; [simpl; lia|].
      intros c Hc. assert (Ha : isalnum c = true ∨ c = "_"%char); [|by split; [|apply Hplain]].
      left. simpl in Hc. set_unfold in Hc. by destruct Hc as [->|[->|[->|[->|[]]]]].
    + exists (a :: l). split; [done|]. split.
      * simpl in *. lia.
      * intros c Hc. rewrite <- Hs in Hc. apply safe_task_chars in Hc.
        by split; [|apply Hplain].
  - exists (safe_task 50 task). split; [done|]. split.
    + apply Hlen.
    + intros c Hc%safe_task_chars. by split; [|apply Hplain].
Qed.

End SafetyNames.

Section ExtractSource.
Import PyStr AstExtract.

Lemma splitlines_keepends_go_concat n s cur :
  length s ≤ n → concat (splitlines_keepends_go cur s) = reverse cur ++ s.
Proof.
  revert s cur. induction n as [|n IH]; intros s cur Hn.
  { destruct s; [|simpl in Hn; lia]. cbn [splitlines_keepends_go].
    destruct cur; cbn [concat]; by rewrite ?app_nil_r. }
  destruct s as [|c s]; cbn [splitlines_keepends_go].
  { destruct cur; cbn [concat]; by rewrite ?app_nil_r. }
  simpl in Hn. destruct (is_linebreak c).
  - destruct s as [|d s'].
    + cbn [concat]. by rewrite app_nil_r, reverse_cons.
    + destruct (_ && _); cbn [concat].
      * rewrite IH by (simpl in Hn; lia). rewrite !reverse_cons, <- !app_assoc. done.
      * rewrite IH by lia. rewrite reverse_cons, <- !app_assoc. done.
  - rewrite IH by lia. by rewrite reverse_cons, <- app_assoc.
Qed.

Lemma concat_splitlines_keepends s : concat (splitlines_keepends s) = s.
Proof. exact (splitlines_keepends_go_concat (length s) s [] (le_n _)). Qed.

(** X24. Whatever lines the parser reports for a definition, the text
    [extract_function_source] returns for it is a piece of the source
    copied character for character, made of whole lines: the source is
    the lines before it, the extracted text, and the lines after it. *)
Theorem extracted_source_is_verbatim parse source_code func_name extracted
    (Hfound : extract_function_source parse source_code func_name = Some extracted) :
  ∃ before middle after : list str,
    splitlines_keepends source_code = before ++ middle ++ after
    ∧ extracted = concat middle
    ∧ source_code = concat before ++ extracted ++ concat after.
Proof.
  revert Hfound. unfold extract_function_source.
  destruct (parse source_code) as [body|]; [|done].
  destruct (List.find _ body) as [node|]; [|done]. cbv zeta.
  set (lines := splitlines_keepends source_code).
  set (a := Pos.to_nat (default (lineno node) (first_decorator_lineno node)) - 1).
  set (k := Pos.to_nat (end_lineno node) - a).
  intros [= <-].
  exists (take a lines), (take k (drop a lines)), (drop k (drop a lines)).
  assert (Hsplit : lines = take a lines ++ take k (drop a lines) ++ drop k (drop a lines)).
  { by rewrite (take_drop k), (take_drop a). }
  split; [exact Hsplit|]. split; [done|].
  rewrite <- !concat_app, <- Hsplit. symmetry. apply concat_splitlines_keepends.
Qed.

Lemma extracted_source_is_verbatim_witness :
  ∃ before middle after : list str,
    splitlines_keepends (text ["import os"; "def f():"; "    return 1"; "x = f()"])
    = before ++ middle ++ after
    ∧ text ["def f():"; "    return 1"] = concat middle
    ∧ text ["import os"; "def f():"; "    return 1"; "x = f()"]
      = concat before ++ text ["def f():"; "    return 1"] ++ concat after.
Proof.
  apply (extracted_source_is_verbatim
           (λ _, Some [Statement false "" None 1 1; Statement true "f" None 2 3;
                       Statement false "" None 4 4])
           (text ["import os"; "def f():"; "    return 1"; "x = f()"]) "f").
  vm_compute. reflexivity.
Defined.

End ExtractSource.

Section RemovalComposition.

Lemma omap_bind_ext {A B C : Type} (f : A → option B) (g : B → option C) (h : A → option C)
    (l : list A) :
  Forall (λ x, h x = f x ≫= g) l → omap g (omap f l) = omap h l.
Proof.
  induction 1 as [|x l Hx _ IH]; csimpl; [done|]. rewrite Hx.
  destruct (f x) as [y|]; csimpl; [|done]. destruct (g y); by rewrite IH.
Qed.

Lemma ast_visit_app (names1 names2 : list str) (n : AstPatcher.node) :
  AstPatcher.visit (names1 ++ names2) n
  = AstPatcher.visit names1 n ≫= AstPatcher.visit names2.
Proof.
  induction n as [name d body IH | name d body IH | name d body IH | d body IH]
    using ast_node_ind; cbn [AstPatcher.visit].
  1-3: destruct (decide (name ∈ names1)) as [H1|H1];
       [ rewrite (bool_decide_eq_true_2 (name ∈ names1 ++ names2)) by (apply elem_of_app; by left);
         by rewrite (bool_decide_eq_true_2 _ H1)
       | rewrite (bool_decide_eq_false_2 _ H1); csimpl;
         destruct (decide (name ∈ names2)) as [H2|H2];
         [ rewrite (bool_decide_eq_true_2 (name ∈ names1 ++ names2))
             by (apply elem_of_app; by right);
           by rewrite (bool_decide_eq_true_2 _ H2)
         | rewrite (bool_decide_eq_false_2 (name ∈ names1 ++ names2))
             by (rewrite elem_of_app; tauto);
           rewrite (bool_decide_eq_false_2 _ H2); by rewrite (omap_bind_ext _ _ _ _ IH) ] ].
  csimpl. by rewrite (omap_bind_ext _ _ _ _ IH).
Qed.

Lemma cst_visit_app (names1 names2 : list str) (n : CstPatcher.node) :
  CstPatcher.visit (names1 ++ names2) n
  = CstPatcher.visit names1 n ≫= CstPatcher.visit names2.
Proof.
  induction n as [name ch IH | name ch IH | ch IH | t] using cst_node_ind;
    cbn [CstPatcher.visit]; [| | |done].
  1-2: destruct (decide (name ∈ names1)) as [H1|H1];
       [ rewrite (bool_decide_eq_true_2 (name ∈ names1 ++ names2)) by (apply elem_of_app; by left);
         by rewrite (bool_decide_eq_true_2 _ H1)
       | rewrite (bool_decide_eq_false_2 _ H1); csimpl;
         destruct (decide (name ∈ names2)) as [H2|H2];
         [ rewrite (bool_decide_eq_true_2 (name ∈ names1 ++ names2))
             by (apply elem_of_app; by right);
           by rewrite (bool_decide_eq_true_2 _ H2)
         | rewrite (bool_decide_eq_false_2 (name ∈ names1 ++ names2))
             by (rewrite elem_of_app; tauto);
           rewrite (bool_decide_eq_false_2 _ H2); by rewrite (omap_bind_ext _ _ _ _ IH) ] ].
  csimpl. by rewrite (omap_bind_ext _ _ _ _ IH).
Qed.

(** X25. Removals compose, in both engines: removing the definitions
    named in one list from a tree and then those named in a second list
    gives the tree that one removal with the two lists together gives. A
    definition nested in a removed one goes with it either way. *)
Theorem removals_compose (names1 names2 : list str) :
  (∀ tree, AstPatcher.visit_module names2 (AstPatcher.visit_module names1 tree)
           = AstPatcher.visit_module (names1 ++ names2) tree)
  ∧ (∀ tree, CstPatcher.visit_module names2 (CstPatcher.visit_module names1 tree)
             = CstPatcher.visit_module (names1 ++ names2) tree).
Proof.
  split; intros tree.
  - unfold AstPatcher.visit_module. apply omap_bind_ext, Forall_forall.
    intros n _. apply ast_visit_app.
  - unfold CstPatcher.visit_module. apply omap_bind_ext, Forall_forall.
    intros n _. apply cst_visit_app.
Qed.

End RemovalComposition.

Section Routing.
Import PyStr Worker.

(** X26. For three actions the action alone picks the branch, whatever
    the description, the entities, the Extraction Map and the size of the
    file say. [DELETE] goes to the semantic delete. [EXTRACT_AND_MODIFY]
    goes to no other engine than the extraction, which is called with
    the text of the source file; when the step names no source file, or
    nothing readable stands at its path, the call raises before any
    engine is called. [CREATE] goes to the surgical creation when a
    source file is named, with the text of that file or the empty text
    when it does not exist, and to a full rewrite otherwise, so that a
    description that speaks of deleting never turns a creation into a
    deletion. The action is read without regard to case. *)
Theorem action_picks_engine project original ins extraction_map :
  (upper (action ins) = "DELETE" →
   _process_change project original ins extraction_map = SemanticDelete)
  ∧ (upper (action ins) = "EXTRACT_AND_MODIFY" →
     _process_change project original ins extraction_map
     = match source_file ins with
       | None => MissingSourceFile
       | Some source_file =>
           match project source_file with
           | Some (File source_content) => ExtractAndModify source_content
           | Some (Unreadable e) => Raises e
           | None => Raises FileNotFoundError
           end
       end)
  ∧ (upper (action ins) = "CREATE" →
     _process_change project original ins extraction_map
     = match source_file ins with
       | Some (c :: source_file) =>
           match project (c :: source_file) with
           | Some (File source_content) => SurgicalCreate source_content
           | Some (Unreadable e) => Raises e
           | None => SurgicalCreate []
           end
       | _ => CreateFullRewrite
       end).
Proof.
  unfold _process_change, _looks_like_delete, surgical_create_from, extract_and_modify_from.
  split; [|split]; intros ->.
  - rewrite (bool_decide_eq_false_2 (("DELETE" : str) = "CREATE")) by discriminate.
    rewrite (bool_decide_eq_false_2 (("DELETE" : str) = "MODIFY")) by discriminate.
    rewrite (bool_decide_eq_false_2 (("DELETE" : str) = "EXTRACT_AND_MODIFY")) by discriminate.
    by rewrite (bool_decide_eq_true_2 (("DELETE" : str) = "DELETE")).
  - rewrite (bool_decide_eq_false_2 (("EXTRACT_AND_MODIFY" : str) = "CREATE")) by discriminate.
    rewrite (bool_decide_eq_false_2 (("EXTRACT_AND_MODIFY" : str) = "MODIFY")) by discriminate.
    by rewrite (bool_decide_eq_true_2 (("EXTRACT_AND_MODIFY" : str) = "EXTRACT_AND_MODIFY")).
  - rewrite (bool_decide_eq_true_2 (("CREATE" : str) = "CREATE")) by done.
    rewrite (bool_decide_eq_false_2 (("CREATE" : str) = "MODIFY")) by discriminate.
    rewrite (bool_decide_eq_false_2 (("CREATE" : str) = "EXTRACT_AND_MODIFY")) by discriminate.
    by destruct (source_file ins) as [[|c s]|].
Qed.

(** X26, witness: the source file of an extraction does not exist in
    the project, and the call raises [FileNotFoundError]. *)
Lemma action_picks_engine_witness :
  _process_change (single_file "core/new.py" "") ""
    (Instruction "extract_and_modify" "core/new.py" (Some ("core/old.py" : str))
       "move the helpers" []) ∅
  = Raises FileNotFoundError.
Proof.
  apply (proj1 (proj2 (action_picks_engine (single_file "core/new.py" "") ""
                         (Instruction "extract_and_modify" "core/new.py"
                            (Some ("core/old.py" : str)) "move the helpers" []) ∅))).
  vm_compute. reflexivity.
Defined.

End Routing.

Section DraftProperties.
Import PyStr Worker Draft.

Variable process_change :
  str → change → list task → gmap str extraction →
  result (str + list (str * str)) * gmap str extraction.
Variable stage disk : gmap str str.

(** X27. [create_diff_draft] counts every change of the plan once, as
    drafted or as failed: the two counters add up to the total, the
    details hold one entry per change, in the order of the plan and under
    the file of the change, and a change is reported as staged exactly
    when it was counted as drafted. *)
Theorem every_change_is_counted changes :
  let s := (create_diff_draft process_change stage disk changes).1.1 in
  total s = length changes
  ∧ drafted s + failed s = total s
  ∧ map fst (details s) = map file changes
  ∧ length (filter (λ d : str * status, is_staged d.2 = true) (details s)) = drafted s.
Proof.
  unfold create_diff_draft.
  set (init := DraftState ∅ [] ∅ (Stats (length changes) 0 0 []) []).
  assert (H : ∀ st,
             let st' := foldl (draft_change process_change stage disk) st changes in
             total (counts st') = total (counts st)
             ∧ drafted (counts st') + failed (counts st')
               = drafted (counts st) + failed (counts st) + length changes
             ∧ map fst (details (counts st')) = map fst (details (counts st)) ++ map file changes
             ∧ (length (filter (λ d : str * status, is_staged d.2 = true) (details (counts st)))
                = drafted (counts st) →
                length (filter (λ d : str * status, is_staged d.2 = true) (details (counts st')))
                = drafted (counts st'))).
  { induction changes as [|c cs IH]; intros st; cbn [foldl].
    - cbv zeta. rewrite app_nil_r. simpl. repeat split; try done; lia.
    - specialize (IH (draft_change process_change stage disk st c)). cbv zeta in *.
      destruct IH as (Ht & Hc & Hd & Hs).
      assert (Hstep : total (counts (draft_change process_change stage disk st c))
                      = total (counts st)
                      ∧ drafted (counts (draft_change process_change stage disk st c))
                        + failed (counts (draft_change process_change stage disk st c))
                        = S (drafted (counts st) + failed (counts st))
                      ∧ map fst (details (counts (draft_change process_change stage disk st c)))
                        = map fst (details (counts st)) ++ [file c]
                      ∧ (length (filter (λ d : str * status, is_staged d.2 = true) (details (counts st)))
                         = drafted (counts st) →
                         length (filter (λ d : str * status, is_staged d.2 = true)
                                   (details (counts (draft_change process_change stage disk st c))))
                         = drafted (counts (draft_change process_change stage disk st c)))).
      { unfold draft_change.
        destruct (base_content stage disk (working st) (file c)) as [original w].
        destruct (process_change original c (task_history st) (extraction_map st))
          as [[r|e] em].
        - destruct (stage_files w _) as [w' fl]. cbn.
          rewrite map_app, filter_app, length_app. cbn.
          split; [done|]. split; [lia|]. split; [done|].
          intros ->. rewrite decide_True by done. simpl. lia.
        - cbn. rewrite map_app, filter_app, length_app. cbn.
          split; [done|]. split; [lia|]. split; [done|].
          intros ->. rewrite decide_False by done. simpl. lia. }
      destruct Hstep as (Ht' & Hc' & Hd' & Hs').
      split; [congruence|]. split; [simpl; lia|]. split.
      { rewrite Hd, Hd'. by rewrite <- app_assoc. }
      by intros ?%Hs'%Hs. }
  specialize (H init). cbv zeta in H. destruct H as (Ht & Hc & Hd & Hs).
  cbv zeta. unfold create_diff_draft. cbn [fst]. fold init.
  split; [exact Ht|]. split; [rewrite Ht; simpl in *; lia|].
  split; [exact Hd|]. by apply Hs.
Qed.

End DraftProperties.

Section SoftMatch.
Import PyStr Patcher.

Lemma lines_match_spec text_lines i j search_lines :
  lines_match text_lines i j search_lines = true
  ↔ map strip (take (length search_lines) (drop (i + j) text_lines)) = search_lines.
Proof.
  revert j. induction search_lines as [|s rest IH]; intros j; cbn [lines_match length].
  - by rewrite take_0.
  - destruct (text_lines !! (i + j)) as [t|] eqn:Ht.
    + rewrite (drop_S _ _ _ Ht). cbn [take map].
      case_bool_decide as Hs.
      * rewrite IH, Nat.add_succ_r, Hs. split; [by intros -> | by intros [= ->]].
      * split; [done | intros [= ? _]; done].
    + rewrite drop_ge by by apply lookup_ge_None. by rewrite take_nil.
Qed.

Lemma first_index_seq f a n i :
  first_index f (seq a n) = Some i →
  a ≤ i < a + n ∧ f i = true ∧ ∀ j, a ≤ j < i → f j = false.
Proof.
  revert a. induction n as [|n IH]; intros a; cbn [seq first_index]; [done|].
  destruct (f a) eqn:Hfa.
  - intros [= <-]. split; [lia|]. split; [done|]. intros j Hj. lia.
  - intros (Hi & Hfi & Hmin)%IH. split; [lia|]. split; [done|].
    intros j Hj. destruct (decide (j = a)) as [->|]; [done|]. apply Hmin. lia.
Qed.

(** X28. When the soft match applies, it replaces one window of the text:
    the first run of consecutive lines that, stripped of surrounding
    whitespace, are the non-blank lines of the search block stripped; no
    earlier run matches. The result is the lines before the window, the
    replacement and the lines after the window, joined by newlines; the
    lines outside the window are kept as they are. *)
Theorem soft_match_replaces_first_window full_text search replace result
    (Hmatch : _apply_soft_match full_text search replace = Some result) :
  let search_lines := map strip (filter (λ l, strip l ≠ []) (splitlines search)) in
  let text_lines := splitlines full_text in
  ∃ i,
    i + length search_lines ≤ length text_lines
    ∧ map strip (take (length search_lines) (drop i text_lines)) = search_lines
    ∧ (∀ j, j < i → map strip (take (length search_lines) (drop j text_lines)) ≠ search_lines)
    ∧ result = join [NL] (take i text_lines) ++ [NL] ++ replace ++ [NL]
               ++ join [NL] (drop (i + length search_lines) text_lines).
Proof.
  intros search_lines text_lines. revert Hmatch. unfold _apply_soft_match.
  fold search_lines. fold text_lines.
  destruct search_lines as [|s rest] eqn:Hsl; [done|]. rewrite <- Hsl.
  destruct (first_index _ _) as [i|] eqn:Hfirst; [|done]. intros [= <-].
  apply first_index_seq in Hfirst as (Hi & Hfi & Hmin).
  exists i. apply lines_match_spec in Hfi. rewrite Nat.add_0_r in Hfi.
  split; [|split; [exact Hfi|split; [|done]]].
  - assert (0 < length search_lines) by (rewrite Hsl; simpl; lia). lia.
  - intros j Hj Hjm. specialize (Hmin j ltac:(lia)).
    assert (Htrue : lines_match text_lines j 0 search_lines = true).
    { apply lines_match_spec. by rewrite Nat.add_0_r. }
    congruence.
Qed.

Lemma soft_match_replaces_first_window_witness :
  let search_lines := map strip (filter (λ l, strip l ≠ [])
                                   (splitlines (text ["return 1"; ""]))) in
  let text_lines := splitlines (text ["def f():"; "    return 1"; "def g():"; "    return 1"]) in
  ∃ i,
    i + length search_lines ≤ length text_lines
    ∧ map strip (take (length search_lines) (drop i text_lines)) = search_lines
    ∧ (∀ j, j < i → map strip (take (length search_lines) (drop j text_lines)) ≠ search_lines)
    ∧ join [NL] ["def f():" : str; "  return 2" : str; "def g():" : str; "    return 1" : str]
      = join [NL] (take i text_lines) ++ [NL] ++ "  return 2" ++ [NL]
        ++ join [NL] (drop (i + length search_lines) text_lines).
Proof.
  apply (soft_match_replaces_first_window
           (text ["def f():"; "    return 1"; "def g():"; "    return 1"])
           (text ["return 1"; ""]) "  return 2").
  vm_compute. reflexivity.
Defined.

End SoftMatch.
